(** * The IPC provider backend of Mist, as a shallow embedding

    The backend ([ipcProviderBackend]) tunnels the JSON-RPC requests of the
    renderer windows to the Ethereum node: it keeps one connection per
    owner window, sanitises every request, hands it to a method processor
    and shapes the answer (or the error) into a JSON-RPC response.

    The embedding follows the JavaScript source function by function.
    JavaScript values are an inductive type, objects are finite maps from
    property names to values, exceptions are an explicit result type, and
    the mutable backend object is a record that every handler threads
    through, together with the trace of the calls it makes on its
    collaborators (sockets, owner windows, processors, logger). *)

From Stdlib Require Import Ascii QArith Qcanon.
From stdpp Require Import base option list gmap strings pretty numbers.

Set Warnings "-register-all".
#[local] Open Scope string_scope.
#[local] Open Scope list_scope.

(** ** JavaScript values *)

Module Js.

(** Numbers that [JSON.parse] can produce are finite, so a rational holds
    each of them; the two zeros of JavaScript coincide, and both are
    falsy and print alike. *)
Inductive value : Type :=
| VUndef
| VNull
| VBool (b : bool)
| VNum (q : Qc)
| VStr (s : string)
| VArr (l : list value)
| VObj (o : gmap string value).

Abbreviation object := (gmap string value).

Definition num (z : Z) : value := VNum (Qc_of_Z z).

(** What a [throw] carries: any value (the backend throws its plain
    [ERRORS] objects), or a built-in [Error] object, of which the backend
    reads [message] (the given string) and [code] (absent). *)
Inductive exn : Type :=
| JsValue (v : value)
| JsError (name message : string).

Inductive res (A : Type) : Type :=
| Ok (a : A)
| Throw (e : exn).
Arguments Ok {A} a.
Arguments Throw {A} e.

#[global] Instance res_ret : MRet res := @Ok.
#[global] Instance res_bind : MBind res := fun A B f m =>
  match m with Ok a => f a | Throw e => Throw e end.
#[global] Instance res_fmap : FMap res := fun A B f m =>
  match m with Ok a => Ok (f a) | Throw e => Throw e end.

Definition TypeError (message : string) : exn := JsError "TypeError" message.

Definition is_ok {A} (r : res A) : bool :=
  match r with Ok _ => true | Throw _ => false end.

(** [ToBoolean] *)
Definition truthy (v : value) : bool :=
  match v with
  | VUndef | VNull => false
  | VBool b => b
  | VNum q => bool_decide (q ≠ 0%Qc)
  | VStr s => bool_decide (s ≠ "")
  | VArr _ | VObj _ => true
  end.

(** [s === v] for a string literal [s] *)
Definition strict_equal (s : string) (v : value) : bool :=
  match v with VStr t => String.eqb s t | _ => false end.

(** [_.isArray] *)
Definition isArray (v : value) : bool :=
  match v with VArr _ => true | _ => false end.

(** [o[k]] on an object: an absent property reads as [undefined]. *)
Definition prop (o : object) (k : string) : value := default VUndef (o !! k).

(** [v.k] for the property names the backend reads ([method], [id],
    [error], [result], [message], [code]); no built-in prototype defines
    one of them, so only an object can hold them, and reading them from
    [undefined] or [null] throws. *)
Definition get (v : value) (k : string) : res value :=
  match v with
  | VUndef => Throw (TypeError ("Cannot read property '" ++ k ++ "' of undefined"))
  | VNull => Throw (TypeError ("Cannot read property '" ++ k ++ "' of null"))
  | VObj o => Ok (prop o k)
  | _ => Ok VUndef
  end.

(** [v[i]] for an array index [i]. *)
Definition get_index (v : value) (i : nat) : res value :=
  match v with
  | VUndef => Throw (TypeError ("Cannot read property '" ++ pretty i ++ "' of undefined"))
  | VNull => Throw (TypeError ("Cannot read property '" ++ pretty i ++ "' of null"))
  | VArr l => Ok (default VUndef (l !! i))
  | VObj o => Ok (prop o (pretty i))
  | VStr s => Ok (match String.get i s with
                  | Some c => VStr (String c EmptyString)
                  | None => VUndef
                  end)
  | _ => Ok VUndef
  end.

(** The own enumerable properties that [_.extend] copies from a source
    ([_.allKeys]: none unless the source is an object; the indices of an
    array). *)
Definition allProps (v : value) : object :=
  match v with
  | VObj o => o
  | VArr l => list_to_map (imap (fun i x => (pretty i, x)) l)
  | _ => ∅
  end.

(** [_.extend(dst, src)]: the properties of [src] win. *)
Definition extend (dst : object) (src : value) : object := allProps src ∪ dst.

(** [[].concat(v)]: an array is spread, anything else is one element. *)
Definition concat (v : value) : list value :=
  match v with VArr l => l | _ => [v] end.

(** [delete v.k] and [v.k = x] on the result of a shaping step, which is
    an object or an array; a named property on an array is not an
    element and is never serialised, so an array stays as it is. *)
Definition delete_prop (k : string) (v : value) : value :=
  match v with VObj o => VObj (delete k o) | _ => v end.

Definition set_prop (k : string) (x : value) (v : value) : value :=
  match v with VObj o => VObj (<[k := x]> o) | _ => v end.

(** [Array.prototype.pop]: the last element ([undefined] when there is
    none) and the array that is left. *)
Definition pop (l : list value) : value * list value :=
  (default VUndef (l !! pred (length l)), take (pred (length l)) l).

(** The built-ins the backend calls and that are taken as given:
    [JSON.parse] (a value, or a [SyntaxError] with its message),
    [JSON.stringify], and the printing of a number. *)
Inductive parsed : Type :=
| Parsed (v : value)
| SyntaxError (message : string).

Class Builtins : Type := {
  JSON_parse : string -> parsed;
  JSON_stringify : value -> string;
  Number_toString : Qc -> string;
}.

Definition parse `{Builtins} (s : string) : res value :=
  match JSON_parse s with
  | Parsed v => Ok v
  | SyntaxError m => Throw (JsError "SyntaxError" m)
  end.

(** [ToString], as string concatenation applies it. *)
Fixpoint ToString `{Builtins} (v : value) : string :=
  match v with
  | VUndef => "undefined"
  | VNull => "null"
  | VBool true => "true"
  | VBool false => "false"
  | VNum q => Number_toString q
  | VStr s => s
  | VArr l =>
      String.concat ","
        (map (fun x => match x with
                       | VUndef | VNull => ""
                       | _ => ToString x
                       end) l)
  | VObj _ => "[object Object]"
  end.

(** *** [String.prototype.replace] with the pattern [/'[a-z_]*'/i]

    Without the [u] flag, [i] makes [[a-z_]] accept the ASCII letters of
    both cases and the underscore, nothing else. *)
Definition is_class_char (c : ascii) : bool :=
  let n := nat_of_ascii c in
  ((65 <=? n)%nat && (n <=? 90)%nat) || ((97 <=? n)%nat && (n <=? 122)%nat) || (n =? 95)%nat.

Definition quote : ascii := "'"%char.

Fixpoint skip_class (s : string) : string :=
  match s with
  | String c s' => if is_class_char c then skip_class s' else s
  | EmptyString => EmptyString
  end.

(** A match that starts at the head of [s]: what follows it. The star is
    greedy, and since a quote is not in the class, the longest run is the
    only one a closing quote can follow. *)
Definition match_here (s : string) : option string :=
  match s with
  | String c s1 =>
      if Ascii.eqb c quote then
        match skip_class s1 with
        | String c' s2 => if Ascii.eqb c' quote then Some s2 else None
        | EmptyString => None
        end
      else None
  | EmptyString => None
  end.

(** The leftmost match: the text before it, the match, the text after. *)
Fixpoint search (s : string) : option (string * string * string) :=
  match match_here s with
  | Some rest =>
      Some (EmptyString, String.substring 0 (String.length s - String.length rest) s, rest)
  | None =>
      match s with
      | EmptyString => None
      | String c s' =>
          match search s' with
          | Some (b, m, a) => Some (String c b, m, a)
          | None => None
          end
      end
  end.

(** [GetSubstitution] for a pattern without capture groups: in the
    replacement text, [$$] is a dollar, [$&] the match, [$`] the text
    before the match, [$'] the text after it; any other dollar stands for
    itself. *)
Fixpoint substitution (before matched after : string) (r : string) : string :=
  match r with
  | EmptyString => EmptyString
  | String c r1 =>
      if Ascii.eqb c "$"%char then
        match r1 with
        | String d r2 =>
            if Ascii.eqb d "$"%char then String "$"%char (substitution before matched after r2)
            else if Ascii.eqb d "&"%char then matched ++ substitution before matched after r2
            else if Ascii.eqb d "`"%char then before ++ substitution before matched after r2
            else if Ascii.eqb d quote then after ++ substitution before matched after r2
            else String c (substitution before matched after r1)
        | EmptyString => String c EmptyString
        end
      else String c (substitution before matched after r1)
  end.

Definition replace_quoted (s replacement : string) : string :=
  match search s with
  | Some (b, m, a) => b ++ substitution b m a replacement ++ a
  | None => s
  end.

End Js.
Export Js.

(** ** The backend *)

Module IpcProviderBackend.

(** *** The error table [ERRORS] *)

Definition error_object (code : Z) (message : string) : value :=
  VObj {[ "code" := num code; "message" := VStr message ]}.

Module ERRORS.
Definition INVALID_PAYLOAD : value :=
  error_object (-32600) "Payload invalid.".
Definition METHOD_DENIED : value :=
  error_object (-32601) "Method '__method__' not allowed.".
Definition METHOD_TIMEOUT : value :=
  error_object (-32603) "Request timed out for method  '__method__'.".
Definition TX_DENIED : value :=
  error_object (-32603) "Transaction denied".
Definition BATCH_TX_DENIED : value :=
  error_object (-32603)
    "Transactions denied, sendTransaction is not allowed in batch requests.".
End ERRORS.

(** *** Method processors

    The processors live in the [methods] directory, one file per
    processor, and are loaded by name when the backend is constructed;
    [base] is the one the backend names itself. A processor is called
    with the connection (here the id of its owner) and the payload.
    [sanitizePayload] works on the payload in place, so what it leaves is
    an object if it was given an object, an array if it was given an
    array, and the very same value otherwise. *)

Abbreviation owner_id := N.

Definition same_kind (v v' : value) : Prop :=
  match v with
  | VObj _ => exists o', v' = VObj o'
  | VArr _ => exists l', v' = VArr l'
  | _ => v' = v
  end.

Record processor : Type := {
  sanitizePayload : owner_id -> value -> res value;
  exec : owner_id -> value -> res value;
  sanitize_in_place :
    forall conn p p', sanitizePayload conn p = Ok p' -> same_kind p p';
}.

Class Processors : Type := {
  base : processor;
  named : gmap string processor;
}.

Section Shaping.
Context `{Builtins}.

(** *** [_makeErrorResponsePayload]

    One pass of the [map] callback. When [error.message] is an array,
    [pop] shortens the array that [error] itself holds, and the next item
    of a batch sees what is left: the pass returns the entry together
    with [error] as it leaves it. *)
Definition replace_method (message item : value) : res string :=
  match message with
  | VStr s =>
      m ← get item "method";
      Ok (replace_quoted s ("'" ++ ToString m ++ "'"))
  | VUndef | VNull =>
      Throw (TypeError "Cannot read property 'replace' of undefined")
  | _ =>
      _ ← get item "method";
      Throw (TypeError "e.message.replace is not a function")
  end.

Definition errorEntry (item error : value) : res (object * value) :=
  let e : object := extend {[ "jsonrpc" := VStr "2.0" ]} error in
  '(e, error) ←
    (if truthy (prop e "message") then
       let '(message, error) :=
         match prop e "message", error with
         | VArr l, VObj err =>
             (fst (pop l), VObj (<["message" := VArr (snd (pop l))]> err))
         | m, _ => (m, error)
         end in
       replaced ← replace_method message item;
       Ok (delete "message" (<["error" := VObj {[ "message" := VStr replaced ]}]> e),
           error)
     else Ok (e, error));
  (* delete stuff leftover from request *)
  let e := delete "method" (delete "params" e) in
  id ← get item "id";
  Ok (<["id" := id]> e, error).

Fixpoint errorEntries (items : list value) (error : value) : res (list value) :=
  match items with
  | [] => Ok []
  | item :: rest =>
      '(e, error) ← errorEntry item error;
      es ← errorEntries rest error;
      Ok (VObj e :: es)
  end.

Definition _makeErrorResponsePayload (originalPayload error : value) : res value :=
  e ← errorEntries (concat originalPayload) error;
  Ok (if isArray originalPayload then VArr e else default VUndef (e !! 0%nat)).

(** *** [_makeResponsePayload] *)
Definition responseEntry (finalValue : value) (idx : nat) (item : value) : res value :=
  finalResult ← get_index finalValue idx;
  err ← get finalResult "error";
  ret ←
    (if truthy err then
       (* handle error result *)
       _makeErrorResponsePayload item err
     else
       result ← get finalResult "result";
       Ok (VObj (extend (extend ∅ item) (VObj {[ "result" := result ]}))));
  id ← get item "id";
  let ret := if truthy id then delete_prop "method" (delete_prop "params" ret) else ret in
  Ok (set_prop "jsonrpc" (VStr "2.0") ret).

Fixpoint responseEntries (finalValue : value) (idx : nat) (items : list value)
  : res (list value) :=
  match items with
  | [] => Ok []
  | item :: rest =>
      ret ← responseEntry finalValue idx item;
      rets ← responseEntries finalValue (S idx) rest;
      Ok (ret :: rets)
  end.

Definition _makeResponsePayload (originalPayload val : value) : res value :=
  let finalValue := if isArray originalPayload then val else VArr [val] in
  allResults ← responseEntries finalValue 0 (concat originalPayload);
  Ok (if isArray originalPayload then VArr allResults
      else default VUndef (allResults !! 0%nat)).

End Shaping.

(** *** [_sanitizeRequestPayload]

    The payload is changed in place; the function returns it as the
    sanitising leaves it. *)
Section Sanitize.
Context `{Processors}.

Definition sanitizeBatchEntry (conn : owner_id) (p : value) : res value :=
  m ← get p "method";
  if strict_equal "eth_sendTransaction" m
  then Ok (set_prop "error" ERRORS.BATCH_TX_DENIED p)
  else sanitizePayload base conn p.

Fixpoint sanitizeBatch (conn : owner_id) (payload : list value) : res (list value) :=
  match payload with
  | [] => Ok []
  | p :: rest =>
      p' ← sanitizeBatchEntry conn p;
      rest' ← sanitizeBatch conn rest;
      Ok (p' :: rest')
  end.

Definition _sanitizeRequestPayload (conn : owner_id) (payload : value) : res value :=
  match payload with
  | VArr l => VArr <$> sanitizeBatch conn l
  | _ => sanitizePayload base conn payload
  end.

End Sanitize.

(** *** Collaborators and the backend object *)

(** Modelled from the spec: the node-lifecycle source [ethereumNode] is a
    collaborator whose file is not part of the backend; its [STATES]
    enumeration has the members the backend names (CONNECTED, STOPPING)
    and the two others the interface lists. *)
Inductive node_state : Type := STARTING | CONNECTED | STOPPING | STOPPED.

#[global] Instance node_state_eq_dec : EqDecision node_state.
Proof. solve_decision. Defined.

(** Modelled from the spec: [Sockets.get] is a socket factory keyed by
    caller identity, so the socket of a connection is named by the id of
    its owner; the socket's [isConnected] flag belongs to the socket, and
    the backend only reads it. *)
Record connection : Type := {
  id : owner_id;
  owner : owner_id;
  socket : owner_id;
}.

(** The calls the backend makes on its collaborators, in the order it
    makes them. *)
Inductive call : Type :=
| Sockets_get (id : owner_id)
| socket_on (socket : owner_id) (ev : string)
| socket_connect (socket : owner_id) (timeout : Z)
| socket_disconnect (socket : owner_id)
| socket_destroy (socket : owner_id)
| owner_send (owner : owner_id) (channel : string) (arg : value)
| event_returnValue (owner : owner_id) (returnValue : string)
| processor_exec (name : string) (conn : owner_id) (payload : value)
| log_error (message : string)
| unhandled_rejection (e : exn).

(** Who waits for the connection of an owner: the rest of
    [_getOrCreateConnection] when the IPC call was [ipcProvider-create],
    or the rest of [_sendRequest], which holds the raw payload string and
    the parsed payload. *)
Inductive awaiter : Type :=
| AwaitCreate (owner : owner_id)
| AwaitSend (isSync : bool) (owner : owner_id) (payloadStr : string) (payload : value).

(** An entry of [_connectionPromise]: the one connect operation in flight
    for an owner, on the socket that the call which started it had in
    hand. It first waits for the node to be CONNECTED, with a listener
    on the node ([AwaitingNode]); when the node is CONNECTED, the
    callback that calls [socket.connect] is due ([NodeConnected]); after
    that call the operation waits for the connect to settle
    ([Connecting]). *)
Inductive progress : Type := AwaitingNode | NodeConnected | Connecting.

#[global] Instance progress_eq_dec : EqDecision progress.
Proof. solve_decision. Defined.

Record pending : Type := {
  psocket : owner_id;
  stage : progress;
  awaiters : list awaiter;
}.

(** The callbacks that the backend has given to [then] on a promise that
    is settled, and that wait for their turn: the three callbacks of
    [_getOrCreateConnection] (the last one also stands for a rejection
    that passes it), the callback of the connect operation that calls
    [socket.connect], and the callback of [_sendRequest] that takes the
    connection. Each belongs to the owner whose call made it. *)
Inductive job : Type :=
| SaveConnection (socket : owner_id) (a : awaiter)
| CheckConnected (socket : owner_id) (a : awaiter)
| SocketConnect (socket : owner_id)
| Resume (r : res ()) (a : awaiter)
| Request (isSync : bool) (payloadStr : string) (payload : value)
          (conn : option connection).

(** A call of [socket.destroy()] that has not settled, with what waits
    for it in [finally]: the callback of [_destroyConnection], or the one
    of the listener of a socket event, which holds the event. *)
Inductive closing : Type :=
| ByRequest
| ByEvent (ev : string) (data : value).

Record state : Type := {
  _connections : gmap owner_id connection;
  _connectionPromise : gmap owner_id pending;
  (** [ethereumNode.state] *)
  node : node_state;
  (** the sockets whose [isConnected] is true *)
  connected : gset owner_id;
  (** the callbacks that are due, by owner *)
  queue : gmap owner_id (list job);
  (** the calls of [socket.destroy()] in flight, by owner *)
  destroying : gmap owner_id (list closing);
}.

Definition init (n : node_state) : state :=
  {| _connections := ∅; _connectionPromise := ∅; node := n; connected := ∅;
     queue := ∅; destroying := ∅ |}.

Definition isConnected (st : state) (socket : owner_id) : bool :=
  bool_decide (socket ∈ connected st).

Definition jobs (st : state) (ownerId : owner_id) : list job :=
  default [] (queue st !! ownerId).

Definition closings (st : state) (ownerId : owner_id) : list closing :=
  default [] (destroying st !! ownerId).

Definition with_connections (f : gmap owner_id connection -> gmap owner_id connection)
    (st : state) : state :=
  {| _connections := f (_connections st);
     _connectionPromise := _connectionPromise st;
     node := node st; connected := connected st;
     queue := queue st; destroying := destroying st |}.

Definition with_connectionPromise (f : gmap owner_id pending -> gmap owner_id pending)
    (st : state) : state :=
  {| _connections := _connections st;
     _connectionPromise := f (_connectionPromise st);
     node := node st; connected := connected st;
     queue := queue st; destroying := destroying st |}.

Definition with_node (s : node_state) (st : state) : state :=
  {| _connections := _connections st;
     _connectionPromise := _connectionPromise st;
     node := s; connected := connected st;
     queue := queue st; destroying := destroying st |}.

Definition with_connected (f : gset owner_id -> gset owner_id) (st : state) : state :=
  {| _connections := _connections st;
     _connectionPromise := _connectionPromise st;
     node := node st; connected := f (connected st);
     queue := queue st; destroying := destroying st |}.

Definition with_queue (f : gmap owner_id (list job) -> gmap owner_id (list job))
    (st : state) : state :=
  {| _connections := _connections st;
     _connectionPromise := _connectionPromise st;
     node := node st; connected := connected st;
     queue := f (queue st); destroying := destroying st |}.

Definition with_destroying
    (f : gmap owner_id (list closing) -> gmap owner_id (list closing))
    (st : state) : state :=
  {| _connections := _connections st;
     _connectionPromise := _connectionPromise st;
     node := node st; connected := connected st;
     queue := queue st; destroying := f (destroying st) |}.

(** The callbacks [js] become due for the owner, after those that are. *)
Definition enqueue (ownerId : owner_id) (js : list job) (st : state) : state :=
  with_queue <[ownerId := jobs st ownerId ++ js]> st.

(** A handler of the backend runs up to the first promise it has to wait
    for, and so does a callback: a callback given to [then] or [finally]
    does not run in the call that makes or settles the promise, it runs
    later on its own, and other events can be handled before it does.
    A callback that is due is an entry of [queue], and an input of its
    own says that it runs; the model does not fix the order in which the
    callbacks that are due run, nor what is handled between them, so
    what is proved of all runs holds of the order that the promise
    library chooses. The promises of the collaborators settle by inputs
    of their own ([socket.connect], [socket.destroy]); such an input
    stands for the moment the [finally] callback on that promise runs.
    From the callback of [_sendRequest] that takes the connection on,
    nothing reads the tables of the backend any more, so the rest of that
    chain is one callback, with the outcome of [exec] given by the
    processor; in the same way the [catch] callback of a request that
    cannot be parsed and the [disconnect] promises of
    [_onNodeStateChanged] are followed within the handler: when their
    calls are made, relative to other calls, is not modelled. *)
Section Handlers.
Context `{Builtins} `{Processors}.

(** *** [_sendRequest], from the connection on *)

(** [this._processors]: the processors by name. *)
Definition _processors : gmap string processor := <["base" := base]> named.

(** Names that every object inherits; [this._processors[name]] is then a
    built-in that has no [exec]. *)
Definition inherited : list string :=
  [ "constructor"; "toString"; "toLocaleString"; "valueOf"; "hasOwnProperty";
    "isPrototypeOf"; "propertyIsEnumerable"; "__proto__";
    "__defineGetter__"; "__defineSetter__"; "__lookupGetter__"; "__lookupSetter__" ].

Definition dispatch (conn : owner_id) (finalPayload : value) : res value * list call :=
  match get finalPayload "method" with
  | Throw e => (Throw e, [])
  | Ok m =>
      let name := ToString m in
      match _processors !! name with
      | Some p => (exec p conn finalPayload, [processor_exec name conn finalPayload])
      | None =>
          if bool_decide (name ∈ inherited) then
            (Throw (TypeError "this._processors[finalPayload.method].exec is not a function"), [])
          else (exec base conn finalPayload, [processor_exec "base" conn finalPayload])
      end
  end.

(** The callback of [.then((conn) => ...)], with the settlement of the
    promise that [exec] returns. *)
Definition onConnection (st : state) (conn : option connection) (originalPayloadStr : string)
  : res value * list call :=
  match conn with
  | None => (Throw (TypeError "Cannot read property 'socket' of undefined"), [])
  | Some conn =>
      if negb (isConnected st (socket conn)) then
        (Throw (JsValue ERRORS.METHOD_TIMEOUT), [])
      else
        (* reparse original string (so that we don't modify input payload) *)
        match parse originalPayloadStr ≫= _sanitizeRequestPayload (id conn) with
        | Throw e => (Throw e, [])
        | Ok finalPayload =>
            (* if a single payload and has an error then throw it *)
            match (if isArray finalPayload then Ok VUndef else get finalPayload "error") with
            | Throw e => (Throw e, [])
            | Ok err =>
                if truthy err then (Throw (JsValue err), [])
                else dispatch (id conn) finalPayload
            end
        end
  end.

(** The callback of [.catch((err) => ...)]. *)
Definition onError (payload : value) (err : exn) : res value :=
  message ← match err with
            | JsValue (VStr s) => Ok (VStr s)
            | JsValue v => get v "message"
            | JsError _ m => Ok (VStr m)
            end;
  code ← match err with
         | JsValue v => get v "code"
         | JsError _ _ => Ok VUndef
         end;
  _makeErrorResponsePayload (if truthy payload then payload else VObj ∅)
    (VObj {[ "message" := message; "code" := code ]}).

(** The last callback: the JSON text goes back as the return value of a
    synchronous call, as an [ipcProvider-data] event otherwise. *)
Definition deliver (isSync : bool) (ownerId : owner_id) (returnValue : value) : call :=
  let returnValue := JSON_stringify returnValue in
  if isSync then event_returnValue ownerId returnValue
  else owner_send ownerId "ipcProvider-data" (VStr returnValue).

(** The tail of the promise chain of [_sendRequest], from the result (or
    the failure) of everything before it; [payload] is the variable of
    that name: the parsed payload, or still the raw string when parsing
    failed. *)
Definition shaped (payload : value) (r : res value) : res value * list call :=
  match r ≫= _makeResponsePayload payload with
  | Ok v => (Ok v, [])
  | Throw err => (onError payload err, [log_error "Send request failed"])
  end.

Definition settle (isSync : bool) (ownerId : owner_id) (payload : value) (r : res value)
  : list call :=
  let '(v, log) := shaped payload r in
  log ++ match v with
         | Ok returnValue => [deliver isSync ownerId returnValue]
         | Throw e => [unhandled_rejection e]
         end.

(** *** [_getOrCreateConnection], once the connection is there *)

(** The last callback of [_getOrCreateConnection] and what the caller
    chained after it, when they run one after the other on the same
    tables. *)
Definition resume (st : state) (r : res ()) (a : awaiter) : list call :=
  match a, r with
  | AwaitCreate ownerId, Ok _ =>
      [owner_send ownerId "ipcProvider-setWritable" (VBool true)]
  | AwaitCreate ownerId, Throw e => [unhandled_rejection e]
  | AwaitSend isSync ownerId payloadStr payload, Ok _ =>
      let '(result, calls) := onConnection st (_connections st !! ownerId) payloadStr in
      owner_send ownerId "ipcProvider-setWritable" (VBool true)
        :: calls ++ settle isSync ownerId payload result
  | AwaitSend isSync ownerId payloadStr payload, Throw e =>
      settle isSync ownerId payload (Throw e)
  end.

Definition hooks : list string :=
  [ "error"; "timeout"; "end"; "connect"; "data-notification" ].

(** *** [_getOrCreateConnection] *)

(** The body of [Q.try]: it runs with the call. The callback that saves
    the connection is due after it. *)
Definition _getOrCreateConnection (ownerId : owner_id) (a : awaiter) (st : state)
  : state * list call :=
  (* already got? *)
  match _connections st !! ownerId with
  | Some conn => (enqueue ownerId [SaveConnection (socket conn) a] st, [])
  | None => (enqueue ownerId [SaveConnection ownerId a] st, [Sockets_get ownerId])
  end.

(** The first [then]: the connection is saved and the listeners are put
    on the socket, unless the owner has a connection by now. *)
Definition saveConnection (ownerId socket : owner_id) (a : awaiter) (st : state)
  : state * list call :=
  match _connections st !! ownerId with
  | Some _ => (enqueue ownerId [CheckConnected socket a] st, [])
  | None =>
      (* save to collection *)
      (enqueue ownerId [CheckConnected socket a]
         (with_connections
            <[ownerId := {| id := ownerId; owner := ownerId; socket := socket |}]> st),
       map (socket_on socket) hooks)
  end.

(** The second [then]: with a socket that is not connected the call
    joins the connect operation of the owner, or starts it; the
    operation begins with the node: when it is CONNECTED the callback
    that calls [socket.connect] is due, otherwise a listener waits for
    the node. *)
Definition checkConnected (ownerId socket : owner_id) (a : awaiter) (st : state)
  : state :=
  if negb (isConnected st socket) then
    (* track the connection process in a promise *)
    match _connectionPromise st !! ownerId with
    | Some p =>
        with_connectionPromise
          <[ownerId := {| psocket := psocket p; stage := stage p;
                          awaiters := awaiters p ++ [a] |}]> st
    | None =>
        (* wait for node to connect first. *)
        if decide (node st = CONNECTED) then
          enqueue ownerId [SocketConnect socket]
            (with_connectionPromise
               <[ownerId := {| psocket := socket; stage := NodeConnected;
                               awaiters := [a] |}]> st)
        else
          with_connectionPromise
            <[ownerId := {| psocket := socket; stage := AwaitingNode;
                            awaiters := [a] |}]> st
    end
  else enqueue ownerId [Resume (Ok ()) a] st.

(** The callback of the connect operation that calls [socket.connect]. *)
Definition socketConnect (ownerId socket : owner_id) (st : state) : state * list call :=
  (with_connectionPromise
     (alter (fun p => {| psocket := psocket p; stage := Connecting;
                         awaiters := awaiters p |}) ownerId) st,
   [socket_connect socket 5000]).

(** The last [then] of [_getOrCreateConnection], or the rejection that
    passes it: the owner is told that it can write, and the connection
    that is in the table at that moment goes to the next callback of
    [_sendRequest], which is due after it. *)
Definition resumed (r : res ()) (a : awaiter) (st : state) : state * list call :=
  match a, r with
  | AwaitSend isSync ownerId payloadStr payload, Ok _ =>
      (enqueue ownerId [Request isSync payloadStr payload (_connections st !! ownerId)] st,
       [owner_send ownerId "ipcProvider-setWritable" (VBool true)])
  | _, _ => (st, resume st r a)
  end.

(** The callback of [_sendRequest] that takes the connection, and the
    rest of its chain. *)
Definition respond (isSync : bool) (ownerId : owner_id) (payloadStr : string)
    (payload : value) (conn : option connection) (st : state) : list call :=
  let '(result, calls) := onConnection st conn payloadStr in
  calls ++ settle isSync ownerId payload result.

(** A callback of the owner runs. *)
Definition run_job (ownerId : owner_id) (j : job) (st : state) : state * list call :=
  match j with
  | SaveConnection socket a => saveConnection ownerId socket a st
  | CheckConnected socket a => (checkConnected ownerId socket a st, [])
  | SocketConnect socket => socketConnect ownerId socket st
  | Resume r a => resumed r a st
  | Request isSync payloadStr payload conn =>
      (st, respond isSync ownerId payloadStr payload conn st)
  end.

(** The promise of [socket.connect] settles: in [finally] the entry of
    [_connectionPromise] goes, and for everyone who waited on it the last
    callback of [_getOrCreateConnection] is due. *)
Definition onConnectSettled (ownerId : owner_id) (r : res ()) (st : state) : state :=
  match _connectionPromise st !! ownerId with
  | Some p =>
      match stage p with
      | Connecting =>
          enqueue ownerId (map (Resume r) (awaiters p))
            (with_connectionPromise (delete ownerId) st)
      | _ => st
      end
  | None => st
  end.

(** The listeners that the connect operations put on the node: when it
    becomes CONNECTED, each operation that waits for it goes on, and its
    callback that calls [socket.connect] is due. *)
Definition onStateChange (newState : node_state) (st : state) : state :=
  if decide (newState = CONNECTED) then
    with_queue
      (fun q =>
         merge (fun js p =>
                  match p with
                  | Some p =>
                      match stage p with
                      | AwaitingNode => Some (default [] js ++ [SocketConnect (psocket p)])
                      | _ => js
                      end
                  | None => js
                  end) q (_connectionPromise st))
      (with_connectionPromise
         (fmap (fun p => match stage p with
                         | AwaitingNode =>
                             {| psocket := psocket p; stage := NodeConnected;
                                awaiters := awaiters p |}
                         | _ => p
                         end)) st)
  else st.

(** *** [_sendRequest] *)
Definition _sendRequest (isSync : bool) (ownerId : owner_id) (payload : string) (st : state)
  : state * list call :=
  let originalPayloadStr := payload in
  match parse originalPayloadStr with
  | Throw e => (st, settle isSync ownerId (VStr payload) (Throw e))
  | Ok parsed =>
      _getOrCreateConnection ownerId (AwaitSend isSync ownerId originalPayloadStr parsed) st
  end.

(** *** [_destroyConnection]

    The entry stays in the table until the promise of [socket.destroy()]
    settles. *)
Definition _destroyConnection (ownerId : owner_id) (st : state) : state * list call :=
  match _connections st !! ownerId with
  | Some conn =>
      (with_destroying <[ownerId := closings st ownerId ++ [ByRequest]]> st,
       [ owner_send (owner conn) "ipcProvider-setWritable" (VBool false);
         socket_destroy (socket conn) ])
  | None => (st, [])
  end.

(** *** [_onNodeStateChanged]

    [disconnected] is how the promise of each [socket.disconnect()]
    settles. The [_.map] pass calls [disconnect] on every connected
    socket; the owners are told as the promises resolve, and [Q.all]
    passes the first failure (if any) to the [catch]. *)
Definition live (st : state) : list connection :=
  filter (fun item => isConnected st (socket item) = true)
         (map snd (map_to_list (_connections st))).

Definition _onNodeStateChanged (s : node_state) (disconnected : owner_id -> res ())
    (st : state) : list call :=
  match s with
  | STOPPING =>
      map (fun item => socket_disconnect (socket item)) (live st)
      ++ omap (fun item =>
                 match disconnected (socket item) with
                 | Ok _ => Some (owner_send (owner item) "ipcProvider-setWritable" (VBool false))
                 | Throw _ => None
                 end) (live st)
      ++ (if forallb (fun item => is_ok (disconnected (socket item))) (live st)
          then [] else [log_error "Error disconnecting sockets"])
  | _ => []
  end.

End Handlers.

(** *** The listeners on the socket of a connection

    The first callback of [_getOrCreateConnection] puts them on the
    socket when it saves the connection; each definition is what one
    call of the listener does. *)

Module Hooks.
Section Hooks.
Context `{Builtins}.

(** [JSON.stringify(data)] as an argument of [owner.send]: of
    [undefined] it is [undefined], not a string. *)
Definition stringified (data : value) : value :=
  match data with VUndef => VUndef | _ => VStr (JSON_stringify data) end.

(** The listener of ['error'], ['timeout'] and ['end'] calls
    [socket.destroy()]; what it does next waits in [finally]. *)
Definition onSocketGone (ev : string) (ownerId : owner_id) (data : value) (st : state)
  : state * list call :=
  (with_destroying <[ownerId := closings st ownerId ++ [ByEvent ev data]]> st,
   [socket_destroy ownerId]).

(** The promise of a [socket.destroy()] settles, and its [finally]
    callback runs: the entry of the owner is deleted, whether or not the
    socket could be destroyed, and after a socket event the owner is sent
    the event; a failure of [destroy] stays a rejection that nothing
    handles. *)
Definition onDestroySettled (ownerId : owner_id) (c : closing) (r : res ()) (st : state)
  : state * list call :=
  (with_connections (delete ownerId) st,
   match c with
   | ByRequest => []
   | ByEvent ev data =>
       [owner_send ownerId ("ipcProvider-" ++ ev) (stringified data)]
   end
   ++ match r with Ok _ => [] | Throw e => [unhandled_rejection e] end).

(** The listener of ['connect'] *)
Definition onSocketConnect (ownerId : owner_id) (data : value) : call :=
  owner_send ownerId "ipcProvider-connect" (stringified data).

(** The listener of ['data-notification']: the notification is shaped
    with itself as the original payload; an exception leaves the
    listener. *)
Definition onDataNotification (ownerId : owner_id) (data : value) : res call :=
  err ← get data "error";
  data ← (if truthy err then _makeErrorResponsePayload data data
          else _makeResponsePayload data data);
  Ok (owner_send ownerId "ipcProvider-data" (VStr (JSON_stringify data))).

End Hooks.
End Hooks.

(** *** What happens to the backend *)

Section Machine.
Context `{Builtins} `{Processors}.

(** The IPC calls of an owner, the events of the node, a callback of an
    owner that runs (the one at place [k] among those that are due), the
    settlement of [socket.connect] and of a [socket.destroy()] (the one
    at place [k] among those of the owner that are in flight), a change
    of the [isConnected] flag of a socket, and an event of the socket of
    an owner, by its name. An input [socket_emits] stands for one call of
    the listener that the backend has put on the socket for that event;
    a name the backend has no listener for does nothing, and when the
    listener of [data-notification] throws, the exception goes to the
    socket that emitted the event and the backend makes no call. *)
Inductive input : Type :=
| ipcProvider_create (sender : owner_id)
| ipcProvider_destroy (sender : owner_id)
| ipcProvider_write (sender : owner_id) (payload : string)
| ipcProvider_writeSync (sender : owner_id) (payload : string)
| node_state_event (s : node_state) (disconnected : owner_id -> res ())
| callback (ownerId : owner_id) (k : nat)
| socket_connect_settled (socket : owner_id) (r : res ())
| socket_destroy_settled (ownerId : owner_id) (k : nat) (r : res ())
| socket_isConnected (socket : owner_id) (b : bool)
| socket_emits (ownerId : owner_id) (ev : string) (data : value).

Definition step (i : input) (st : state) : state * list call :=
  match i with
  | ipcProvider_create sender => _getOrCreateConnection sender (AwaitCreate sender) st
  | ipcProvider_destroy sender => _destroyConnection sender st
  | ipcProvider_write sender payload => _sendRequest false sender payload st
  | ipcProvider_writeSync sender payload => _sendRequest true sender payload st
  | node_state_event s disconnected =>
      let st := with_node s st in
      (onStateChange s st, _onNodeStateChanged s disconnected st)
  | callback ownerId k =>
      match jobs st ownerId !! k with
      | Some j => run_job ownerId j (with_queue <[ownerId := delete k (jobs st ownerId)]> st)
      | None => (st, [])
      end
  | socket_connect_settled socket r => (onConnectSettled socket r st, [])
  | socket_destroy_settled ownerId k r =>
      match closings st ownerId !! k with
      | Some c =>
          Hooks.onDestroySettled ownerId c r
            (with_destroying <[ownerId := delete k (closings st ownerId)]> st)
      | None => (st, [])
      end
  | socket_isConnected socket b =>
      (with_connected (fun sockets => if b then {[socket]} ∪ sockets
                                      else sockets ∖ {[socket]}) st, [])
  | socket_emits ownerId ev data =>
      if bool_decide (ev ∈ ["error"; "timeout"; "end"])
      then Hooks.onSocketGone ev ownerId data st
      else if String.eqb ev "connect"
      then (st, [Hooks.onSocketConnect ownerId data])
      else if String.eqb ev "data-notification"
      then (st, match Hooks.onDataNotification ownerId data with
                | Ok sent => [sent]
                | Throw _ => []
                end)
      else (st, [])
  end.

Fixpoint run (inputs : list input) (st : state) : state * list call :=
  match inputs with
  | [] => (st, [])
  | i :: inputs =>
      let '(st, calls) := step i st in
      let '(st, calls') := run inputs st in
      (st, calls ++ calls')
  end.

End Machine.

End IpcProviderBackend.
Export IpcProviderBackend.

(** ** A reference environment

    A reader and a printer of JSON text and a sample [base] processor, to
    run the backend on concrete requests. *)

Module Reference.

Definition dquote : ascii := ascii_of_nat 34.
Definition backslash : ascii := ascii_of_nat 92.

Definition is_ws (c : ascii) : bool :=
  let n := nat_of_ascii c in
  (n =? 32)%nat || (n =? 9)%nat || (n =? 10)%nat || (n =? 13)%nat.

Fixpoint skip_ws (s : string) : string :=
  match s with
  | String c s' => if is_ws c then skip_ws s' else s
  | EmptyString => EmptyString
  end.

Definition digit (c : ascii) : option Z :=
  let n := nat_of_ascii c in
  if (48 <=? n)%nat && (n <=? 57)%nat then Some (Z.of_nat (n - 48)) else None.

Definition hex (c : ascii) : option nat :=
  let n := nat_of_ascii c in
  if (48 <=? n)%nat && (n <=? 57)%nat then Some (n - 48)%nat
  else if (65 <=? n)%nat && (n <=? 70)%nat then Some (n - 55)%nat
  else if (97 <=? n)%nat && (n <=? 102)%nat then Some (n - 87)%nat
  else None.

(** What a reader returns: a result and the text left, or the text at
    which it gave up. *)
Inductive outcome (A : Type) : Type :=
| Done (a : A) (rest : string)
| Fail (rest : string).
Arguments Done {A} a rest.
Arguments Fail {A} rest.

Definition cons_char (c : ascii) (r : outcome string) : outcome string :=
  match r with Done s rest => Done (String c s) rest | Fail rest => Fail rest end.

(** A code unit of a [\u] escape, as UTF-8. *)
Definition utf8 (n : nat) : string :=
  if (n <? 128)%nat then String (ascii_of_nat n) EmptyString
  else if (n <? 2048)%nat then
    String (ascii_of_nat (192 + n / 64))
      (String (ascii_of_nat (128 + n mod 64)) EmptyString)
  else
    String (ascii_of_nat (224 + n / 4096))
      (String (ascii_of_nat (128 + (n / 64) mod 64))
         (String (ascii_of_nat (128 + n mod 64)) EmptyString)).

Definition escape (c : ascii) : option ascii :=
  let n := nat_of_ascii c in
  if (n =? 34)%nat || (n =? 92)%nat || (n =? 47)%nat then Some c
  else if Ascii.eqb c "b" then Some (ascii_of_nat 8)
  else if Ascii.eqb c "f" then Some (ascii_of_nat 12)
  else if Ascii.eqb c "n" then Some (ascii_of_nat 10)
  else if Ascii.eqb c "r" then Some (ascii_of_nat 13)
  else if Ascii.eqb c "t" then Some (ascii_of_nat 9)
  else None.

(** The characters of a string literal, after its opening quote. *)
Fixpoint string_body (s : string) : outcome string :=
  match s with
  | EmptyString => Fail EmptyString
  | String c s1 =>
      if Ascii.eqb c dquote then Done EmptyString s1
      else if Ascii.eqb c backslash then
        match s1 with
        | EmptyString => Fail EmptyString
        | String e s2 =>
            match escape e with
            | Some c' => cons_char c' (string_body s2)
            | None =>
                if Ascii.eqb e "u" then
                  match s2 with
                  | String h1 (String h2 (String h3 (String h4 s3))) =>
                      match hex h1, hex h2, hex h3, hex h4 with
                      | Some a, Some b, Some c', Some d =>
                          match string_body s3 with
                          | Done t rest =>
                              Done (utf8 (((a * 16 + b) * 16 + c') * 16 + d) ++ t)%string rest
                          | Fail rest => Fail rest
                          end
                      | _, _, _, _ => Fail s2
                      end
                  | _ => Fail s2
                  end
                else Fail s1
            end
        end
      else if (nat_of_ascii c <? 32)%nat then Fail s
      else cons_char c (string_body s1)
  end.

(** A run of digits: its value, its length, the text left. *)
Fixpoint digits (s : string) (acc : Z) (n : nat) : Z * nat * string :=
  match s with
  | String c s' =>
      match digit c with
      | Some d => digits s' (acc * 10 + d)%Z (S n)
      | None => (acc, n, s)
      end
  | EmptyString => (acc, n, s)
  end.

Definition exponent (s : string) : outcome Z :=
  match s with
  | String c s1 =>
      if Ascii.eqb c "e" || Ascii.eqb c "E" then
        let '(neg, s2) :=
          match s1 with
          | String d s2 =>
              if Ascii.eqb d "-" then (true, s2)
              else if Ascii.eqb d "+" then (false, s2) else (false, s1)
          | EmptyString => (false, s1)
          end in
        let '(e, n, rest) := digits s2 0 0 in
        if (n =? 0)%nat then Fail s2 else Done (if neg then - e else e)%Z rest
      else Done 0%Z s
  | EmptyString => Done 0%Z s
  end.

Definition number (s : string) : outcome Qc :=
  let '(neg, s1) :=
    match s with
    | String c s' => if Ascii.eqb c "-" then (true, s') else (false, s)
    | EmptyString => (false, s)
    end in
  let '(i, n, s2) :=
    match s1 with
    | String c s' => if Ascii.eqb c "0" then (0%Z, 1%nat, s') else digits s1 0 0
    | EmptyString => (0%Z, 0%nat, s1)
    end in
  if (n =? 0)%nat then Fail s1
  else
    let frac :=
      match s2 with
      | String c s' =>
          if Ascii.eqb c "." then
            let '(f, k, s3) := digits s' i 0 in
            if (k =? 0)%nat then Fail s' else Done (f, k) s3
          else Done (i, 0%nat) s2
      | EmptyString => Done (i, 0%nat) s2
      end in
    match frac with
    | Fail rest => Fail rest
    | Done (m, k) s3 =>
        match exponent s3 with
        | Fail rest => Fail rest
        | Done e rest =>
            let m := if neg then (- m)%Z else m in
            let e := (e - Z.of_nat k)%Z in
            Done (if (0 <=? e)%Z then Qc_of_Z (m * 10 ^ e)
                  else Q2Qc (inject_Z m * Qpower (inject_Z 10) e)) rest
        end
    end.

Fixpoint literal (word s : string) : option string :=
  match word, s with
  | EmptyString, _ => Some s
  | String c w, String d s' => if Ascii.eqb c d then literal w s' else None
  | String _ _, EmptyString => None
  end.

(** A value, the elements of an array after its bracket, the members of
    an object after its brace; [fuel] bounds the number of nested calls,
    which the length of the text bounds. *)
Fixpoint read_value (fuel : nat) (s : string) : outcome value :=
  match fuel with
  | O => Fail s
  | S fuel =>
      let s := skip_ws s in
      match s with
      | EmptyString => Fail s
      | String c s1 =>
          if Ascii.eqb c "{" then
            match skip_ws s1 with
            | String d s2 =>
                if Ascii.eqb d "}" then Done (VObj ∅) s2
                else read_members fuel (skip_ws s1) ∅
            | EmptyString => Fail EmptyString
            end
          else if Ascii.eqb c "[" then
            match skip_ws s1 with
            | String d s2 =>
                if Ascii.eqb d "]" then Done (VArr []) s2
                else read_elements fuel (skip_ws s1) []
            | EmptyString => Fail EmptyString
            end
          else if Ascii.eqb c dquote then
            match string_body s1 with
            | Done t rest => Done (VStr t) rest
            | Fail rest => Fail rest
            end
          else if Ascii.eqb c "t" then
            match literal "true" s with
            | Some rest => Done (VBool true) rest
            | None => Fail s
            end
          else if Ascii.eqb c "f" then
            match literal "false" s with
            | Some rest => Done (VBool false) rest
            | None => Fail s
            end
          else if Ascii.eqb c "n" then
            match literal "null" s with
            | Some rest => Done VNull rest
            | None => Fail s
            end
          else
            match number s with
            | Done q rest => Done (VNum q) rest
            | Fail rest => Fail rest
            end
      end
  end
with read_elements (fuel : nat) (s : string) (acc : list value) : outcome value :=
  match fuel with
  | O => Fail s
  | S fuel =>
      match read_value fuel s with
      | Fail rest => Fail rest
      | Done v rest =>
          match skip_ws rest with
          | String c s1 =>
              if Ascii.eqb c "," then read_elements fuel s1 (acc ++ [v])
              else if Ascii.eqb c "]" then Done (VArr (acc ++ [v])) s1
              else Fail (skip_ws rest)
          | EmptyString => Fail EmptyString
          end
      end
  end
with read_members (fuel : nat) (s : string) (acc : object) : outcome value :=
  match fuel with
  | O => Fail s
  | S fuel =>
      match skip_ws s with
      | String c s1 =>
          if Ascii.eqb c dquote then
            match string_body s1 with
            | Fail rest => Fail rest
            | Done k rest =>
                match skip_ws rest with
                | String d s2 =>
                    if Ascii.eqb d ":" then
                      match read_value fuel s2 with
                      | Fail rest => Fail rest
                      | Done v rest =>
                          match skip_ws rest with
                          | String e s3 =>
                              if Ascii.eqb e "," then read_members fuel s3 (<[k := v]> acc)
                              else if Ascii.eqb e "}" then Done (VObj (<[k := v]> acc)) s3
                              else Fail (skip_ws rest)
                          | EmptyString => Fail EmptyString
                          end
                      end
                    else Fail (skip_ws rest)
                | EmptyString => Fail EmptyString
                end
            end
          else Fail (skip_ws s)
      | EmptyString => Fail EmptyString
      end
  end.

(** The message of the [SyntaxError], in the wording of V8. *)
Definition complaint (input rest : string) : string :=
  match rest with
  | EmptyString => "Unexpected end of JSON input"
  | String c _ =>
      "Unexpected token " ++ String c EmptyString ++ " in JSON at position "
      ++ pretty (String.length input - String.length rest)%nat
  end.

Definition read (s : string) : parsed :=
  match read_value (S (String.length s)) s with
  | Done v rest =>
      match skip_ws rest with
      | EmptyString => Parsed v
      | _ => SyntaxError (complaint s (skip_ws rest))
      end
  | Fail rest => SyntaxError (complaint s rest)
  end.

(** Printing: a number in positional decimal notation, a string between
    quotes with its quotes, backslashes and control characters escaped. *)
Fixpoint fraction (fuel : nat) (r d : Z) : string :=
  match fuel with
  | O => EmptyString
  | S fuel =>
      if (r =? 0)%Z then EmptyString
      else (pretty (r * 10 / d)%Z ++ fraction fuel ((r * 10) mod d)%Z d)%string
  end.

Definition print_number (q : Qc) : string :=
  let n := Qnum (this q) in
  let d := Zpos (Qden (this q)) in
  ((if (n <? 0)%Z then "-" else "") ++ pretty (Z.abs n / d)%Z
   ++ (if (Z.abs n mod d =? 0)%Z then ""
       else "." ++ fraction (Pos.to_nat (Qden (this q))) (Z.abs n mod d) d))%string.

Definition hex_digit (n : nat) : ascii :=
  ascii_of_nat (if (n <? 10)%nat then 48 + n else 87 + n).

Fixpoint print_chars (s : string) : string :=
  match s with
  | EmptyString => EmptyString
  | String c s' =>
      let n := nat_of_ascii c in
      ((if (n =? 34)%nat || (n =? 92)%nat then String backslash (String c EmptyString)
        else if (n <? 32)%nat then
          String backslash
            (String "u" (String "0" (String "0"
               (String (hex_digit (n / 16)) (String (hex_digit (n mod 16)) EmptyString)))))
        else String c EmptyString) ++ print_chars s')%string
  end.

Definition print_string (s : string) : string :=
  String dquote (print_chars s ++ String dquote EmptyString).

(** [undefined] prints as [null] inside an array, and a property whose
    value is [undefined] is left out. *)
Fixpoint print (v : value) : string :=
  match v with
  | VUndef | VNull => "null"
  | VBool true => "true"
  | VBool false => "false"
  | VNum q => print_number q
  | VStr s => print_string s
  | VArr l => "[" ++ String.concat "," (map print l) ++ "]"
  | VObj o =>
      "{" ++ String.concat ","
               (map_fold (fun k x acc =>
                            match x with
                            | VUndef => acc
                            | _ => (print_string k ++ ":" ++ print x)%string :: acc
                            end) [] o)
      ++ "}"
  end.

#[global] Instance builtins : Builtins := {|
  JSON_parse := read;
  JSON_stringify := print;
  Number_toString := print_number;
|}.

(** A [base] processor of the kind the backend expects: its sanitising
    attaches [METHOD_DENIED] to a request whose method is not one of the
    public endpoint families, and its [exec] answers every entry it is
    given, passing on the error of an entry that carries one. *)
Definition families : list string := [ "eth_"; "shh_"; "net_"; "web3_"; "db_" ].

Definition public (m : value) : bool :=
  match m with
  | VStr s => existsb (fun f => String.prefix f s) families
  | _ => false
  end.

Definition sanitize (conn : owner_id) (p : value) : res value :=
  match p with
  | VObj o =>
      if public (prop o "method") then Ok p
      else Ok (VObj (<["error" := ERRORS.METHOD_DENIED]> (delete "result" o)))
  | _ => Ok p
  end.

Definition answer (p : value) : value :=
  match p with
  | VObj o =>
      if truthy (prop o "error") then VObj {[ "error" := prop o "error" ]}
      else VObj {[ "result" := VStr "0x1" ]}
  | _ => VObj {[ "error" := ERRORS.INVALID_PAYLOAD ]}
  end.

Definition execute (conn : owner_id) (p : value) : res value :=
  match p with
  | VArr l => Ok (VArr (map answer l))
  | _ => Ok (answer p)
  end.

#[global] Instance processors : Processors := {|
  base := {| sanitizePayload := sanitize; exec := execute;
             sanitize_in_place := ltac:(
               intros conn p p'; destruct p; simpl;
               try (intros [= <-]; eauto; fail);
               destruct (public _); intros [= <-]; eauto) |};
  named := ∅;
|}.

(** A string between double quotes, to write JSON text. *)
Definition quoted (s : string) : string :=
  String dquote (s ++ String dquote EmptyString).

End Reference.

(** ** Sample requests and states *)

Module Sample.
Import Reference.

Definition window : owner_id := 1%N.

Definition conn : connection := {| id := window; owner := window; socket := window |}.

(** The window has its connection, and its socket is connected, or not. *)
Definition online : state :=
  {| _connections := {[ window := conn ]}; _connectionPromise := ∅;
     node := CONNECTED; connected := {[ window ]}; queue := ∅; destroying := ∅ |}.


Definition member (k v : string) : string := quoted k ++ ":" ++ v.

(** [{"method":"eth_call","id":7}] *)
Definition call_text : string :=
  "{" ++ member "method" (quoted "eth_call") ++ "," ++ member "id" "7" ++ "}".
Definition call_request : object := {[ "method" := VStr "eth_call"; "id" := num 7 ]}.

(** [{"method":"admin_peers","id":7}] *)
Definition admin_text : string :=
  "{" ++ member "method" (quoted "admin_peers") ++ "," ++ member "id" "7" ++ "}".

(** [[{"method":"eth_sendTransaction","id":1},{"method":"eth_call","id":7}]] *)
Definition send_request : object :=
  {[ "method" := VStr "eth_sendTransaction"; "id" := num 1 ]}.
Definition batch_text : string :=
  "[{" ++ member "method" (quoted "eth_sendTransaction") ++ "," ++ member "id" "1"
  ++ "}," ++ call_text ++ "]".
Definition batch : list value := [ VObj send_request; VObj call_request ].

(** A request without an id, with parameters. *)
Definition notification : object :=
  {[ "method" := VStr "eth_subscribe"; "params" := VArr [VStr "newHeads"] ]}.

Definition success : value := VObj {[ "result" := VStr "0x1" ]}.
Definition failure : value := VObj {[ "error" := ERRORS.TX_DENIED ]}.


Definition refused : res () := Throw (JsError "Error" "connect ECONNREFUSED").

(** Processors that let every request through, with a processor of its
    own for [eth_accounts]. *)
Definition accounts : processor :=
  {| sanitizePayload := fun _ p => Ok p;
     exec := fun _ _ => Ok (VObj {[ "result" := VArr [] ]});
     sanitize_in_place := ltac:(intros conn p p' [= <-]; destruct p; simpl; eauto) |}.

Definition lenient : Processors :=
  {| base := {| sanitizePayload := fun _ p => Ok p; exec := execute;
                sanitize_in_place :=
                  ltac:(intros conn p p' [= <-]; destruct p; simpl; eauto) |};
     named := {[ "eth_accounts" := accounts ]} |}.

(** [{"method":"eth_accounts","id":7}] *)
Definition accounts_text : string :=
  "{" ++ member "method" (quoted "eth_accounts") ++ "," ++ member "id" "7" ++ "}".
Definition accounts_request : object :=
  {[ "method" := VStr "eth_accounts"; "id" := num 7 ]}.




(** A notification of a subscription that failed. *)
Definition failed_notification : object :=
  {[ "jsonrpc" := VStr "2.0"; "method" := VStr "eth_subscription";
     "params" := VArr [VStr "0x1"]; "error" := ERRORS.TX_DENIED ]}.

(** Settings, as [_.get] reads them. *)
Definition settings : object :=
  {[ "rpc" := VObj {[ "port" := num 0; "host" := VStr "localhost" ]} ]}.

End Sample.

(** ** What the shaping steps are expected to produce *)

Module Shape.










Section Entries.
Context `{Builtins}.

(** The message that an entry carries: the first quoted segment of the
    error's message gives way to the method of the item, between quotes. *)
Definition templated (message : string) (o : object) : value :=
  VStr (replace_quoted message ("'" ++ ToString (prop o "method") ++ "'")).

(** The entry for a request object and an error whose message is a string
    that says something. *)
Definition error_entry (o eo : object) (message : string) : object :=
  <["id" := prop o "id"]>
    (delete "method" (delete "params" (delete "message"
       (<["error" := VObj {[ "message" := templated message o ]}]>
          (eo ∪ {[ "jsonrpc" := VStr "2.0" ]}))))).

(** The entry for a request object and the result that the node gave. *)
Definition success_entry (o : object) (result : value) : object :=
  let ret := <["result" := result]> o in
  <["jsonrpc" := VStr "2.0"]>
    (if truthy (prop o "id") then delete "method" (delete "params" ret) else ret).


(** What the claim on request-only fields says of an entry [e] shaped for
    the request object [o]: they go when the id is truthy, and stay as
    they were (present or not) when it is not. *)
Definition request_fields_by_id (o e : object) : Prop :=
  if truthy (prop o "id")
  then e !! "params" = None /\ e !! "method" = None
  else e !! "params" = o !! "params" /\ e !! "method" = o !! "method".

End Entries.

(** A name without a dollar sign holds no replacement pattern. *)
Fixpoint plain (s : string) : bool :=
  match s with
  | EmptyString => true
  | String c s' => negb (Ascii.eqb c "$") && plain s'
  end.


Section Batches.
Context `{Processors}.

(** The entries of a batch that the sanitising denies. *)
Definition denied_in_batch (p : value) : bool :=
  match get p "method" with
  | Ok m => strict_equal "eth_sendTransaction" m
  | Throw _ => false
  end.

(** What the sanitising makes of an entry [p] of a batch: a denied entry
    gets the batch-transaction error, any other is what the [base]
    processor leaves of it. *)
Definition batch_entry_sanitized (conn : owner_id) (p p' : value) : Prop :=
  if denied_in_batch p
  then p' = set_prop "error" ERRORS.BATCH_TX_DENIED p
       /\ get p' "error" = Ok ERRORS.BATCH_TX_DENIED
  else sanitizePayload base conn p = Ok p'.

End Batches.

Definition is_object (v : value) : Prop := exists o, v = VObj o.


(** The calls of [socket.connect] on the socket [s] among [calls]. *)
Definition is_connect (s : owner_id) (c : call) : bool :=
  match c with
  | socket_connect s' _ => bool_decide (s' = s)
  | _ => false
  end.

Definition connects (s : owner_id) (calls : list call) : nat :=
  length (filter (fun c => is_connect s c = true) calls).

Definition not_connect (c : call) : Prop :=
  match c with socket_connect _ _ => False | _ => True end.

End Shape.
Export Shape.

(** ** The [underscore] mixin

    [_.get(obj, path, fallbackValue)] walks the fields of a dotted path.
    A field is read as an own property: of an object, unless its name is
    one that every object inherits; of an array, when it is an index or
    [length]. A path that leaves these is outside the embedding, and the
    result is then [None]. *)

Module Underscore.

(** [path.split('.')] *)
Fixpoint split (s : string) : list string :=
  match s with
  | EmptyString => [EmptyString]
  | String c s' =>
      if Ascii.eqb c "." then EmptyString :: split s'
      else match split s' with
           | f :: fs => String c f :: fs
           | [] => [String c EmptyString]
           end
  end.

(** [_.isObject]: an object or an array ([null] is not). *)
Definition isObject (v : value) : bool :=
  match v with VObj _ | VArr _ => true | _ => false end.

(** The index that a property name spells, in its canonical form. *)
Fixpoint digits_value (s : string) (acc : nat) : option nat :=
  match s with
  | EmptyString => Some acc
  | String c s' =>
      let n := nat_of_ascii c in
      if (48 <=? n)%nat && (n <=? 57)%nat then digits_value s' (acc * 10 + (n - 48))
      else None
  end.

Definition index_of (k : string) : option nat :=
  match k with
  | EmptyString => None
  | _ => n ← digits_value k 0; if String.eqb (pretty n) k then Some n else None
  end.

(** [result[field]] *)
Definition member (result : value) (field : string) : option value :=
  match result with
  | VObj o => if bool_decide (field ∈ inherited) then None else Some (prop o field)
  | VArr l =>
      if String.eqb field "length" then Some (num (Z.of_nat (length l)))
      else n ← index_of field; Some (default VUndef (l !! n))
  | _ => None
  end.

(** The loop over the fields, and [return result || fallbackValue]. *)
Fixpoint walk (fields : list string) (result fallbackValue : value) : option value :=
  match fields with
  | [] => Some (if truthy result then result else fallbackValue)
  | field :: fields =>
      if isObject result then r ← member result field; walk fields r fallbackValue
      else Some fallbackValue
  end.

Definition get (obj path fallbackValue : value) : option value :=
  match obj, path with
  | VUndef, _ | VNull, _ => Some fallbackValue
  | _, VStr path => walk (split path) obj fallbackValue
  | _, _ => Some fallbackValue
  end.

(** A field name without a dot in it. *)
Fixpoint dotless (s : string) : bool :=
  match s with
  | EmptyString => true
  | String c s' => negb (Ascii.eqb c ".") && dotless s'
  end.

End Underscore.

(** ** Conditions on payloads, errors and calls *)

Module Conditions.


(** A call that answers a request: the return value of a synchronous
    call, or an [ipcProvider-data] event. *)
Definition is_answer (c : call) : bool :=
  match c with
  | event_returnValue _ _ => true
  | owner_send _ channel _ => String.eqb channel "ipcProvider-data"
  | _ => false
  end.



(** What every entry of an error payload looks like, for its item. *)
Definition stripped_entry (item entry : value) : Prop :=
  exists e, entry = VObj e
    /\ e !! "params" = None /\ e !! "method" = None
    /\ exists id, e !! "id" = Some id /\ get item "id" = Ok id.

(** The owner that a call concerns, if any. *)
Definition addressed_to (o : owner_id) (c : call) : Prop :=
  match c with
  | Sockets_get w | socket_on w _ | socket_connect w _ | socket_disconnect w
  | socket_destroy w | owner_send w _ _ | event_returnValue w _
  | processor_exec _ w _ => w = o
  | log_error _ | unhandled_rejection _ => True
  end.

Definition owned (o : owner_id) (a : awaiter) : Prop :=
  match a with
  | AwaitCreate w => w = o
  | AwaitSend _ w _ _ => w = o
  end.

(** A callback of an owner as the handlers make it: on the socket of the
    owner, for a caller that is the owner, with a connection of the
    owner. *)
Definition job_owned (o : owner_id) (j : job) : Prop :=
  match j with
  | SaveConnection s a | CheckConnected s a => s = o /\ owned o a
  | SocketConnect s => s = o
  | Resume _ a => owned o a
  | Request _ _ _ conn =>
      forall c, conn = Some c -> c = {| id := o; owner := o; socket := o |}
  end.

(** The tables as the handlers fill them: a connection is the one of the
    owner it is registered for, and so is a connect operation, with the
    awaiters of that owner, and so are the callbacks that are due. *)
Definition tables_owned (st : state) : Prop :=
  (forall o c, _connections st !! o = Some c ->
               c = {| id := o; owner := o; socket := o |})
  /\ (forall o p, _connectionPromise st !! o = Some p ->
                  psocket p = o /\ Forall (owned o) (awaiters p))
  /\ (forall o, Forall (job_owned o) (jobs st o)).

(** An input that comes from the owner [o]: its IPC calls, its callbacks,
    the settlements of its connect and of its destroys, the events of its
    socket. *)
Definition of_owner (o : owner_id) (i : input) : Prop :=
  match i with
  | ipcProvider_create s | ipcProvider_destroy s | ipcProvider_write s _
  | ipcProvider_writeSync s _ | callback s _ | socket_connect_settled s _
  | socket_destroy_settled s _ _ | socket_emits s _ _ => s = o
  | _ => False
  end.

(** A call that [_getOrCreateConnection] makes for an owner once its
    connection is there: what is sent or returned to the owner, the
    processor that runs for it, and the log. *)
Definition reply_to (o : owner_id) (c : call) : Prop :=
  match c with
  | owner_send w _ _ | event_returnValue w _ | processor_exec _ w _ => w = o
  | log_error _ | unhandled_rejection _ => True
  | _ => False
  end.

(** The connection, the connect operation, the callbacks and the
    destroys of every owner but [ownerId] are in [st'] as they are in
    [st]. *)
Definition apart (ownerId : owner_id) (st st' : state) : Prop :=
  forall o, o <> ownerId ->
    _connections st' !! o = _connections st !! o
    /\ _connectionPromise st' !! o = _connectionPromise st !! o
    /\ jobs st' o = jobs st o
    /\ closings st' o = closings st o.



Definition is_socket_connect (j : job) : bool :=
  match j with SocketConnect _ => true | _ => false end.

(** The callbacks among [js] that are to call [socket.connect]. *)
Definition connects_due (js : list job) : nat :=
  length (filter (fun j => is_socket_connect j = true) js).




(** An input that announces that the node is CONNECTED. *)
Definition announces_connected (i : input) : bool :=
  match i with
  | node_state_event CONNECTED _ => true
  | _ => false
  end.


Section Callers.
Context `{Builtins}.



End Callers.




End Conditions.
Export Conditions.

(** ** Properties of the shaping steps *)

Section ShapingFacts.
Context `{Builtins}.

Lemma truthy_str (s : string) : s <> "" -> truthy (VStr s) = true.
Proof. intros Hs. simpl. by apply bool_decide_eq_true. Qed.

Lemma truthy_num (z : Z) : z <> 0%Z -> truthy (num z) = true.
Proof.
  intros Hz. simpl. apply bool_decide_eq_true. intros Hq.
  apply Hz. apply (f_equal (fun q => Qnum (this q))) in Hq. simpl in Hq.
  exact Hq.
Qed.

Lemma errorEntry_message (o eo : object) (message : string) :
  eo !! "message" = Some (VStr message) -> message <> "" ->
  errorEntry (VObj o) (VObj eo) = Ok (error_entry o eo message, VObj eo).
Proof.
  intros Hm Hne. unfold errorEntry, extend, allProps.
  assert (Hp : prop (eo ∪ {[ "jsonrpc" := VStr "2.0" ]}) "message" = VStr message).
  { unfold prop. by erewrite lookup_union_Some_l. }
  rewrite Hp, truthy_str by done. reflexivity.
Qed.

Lemma errorEntries_message (items : list object) (eo : object) (message : string) :
  eo !! "message" = Some (VStr message) -> message <> "" ->
  errorEntries (VObj <$> items) (VObj eo)
  = Ok ((fun o => VObj (error_entry o eo message)) <$> items).
Proof.
  intros Hm Hne. induction items as [|o items IH]; [done|].
  rewrite !fmap_cons. simpl. rewrite (errorEntry_message _ _ _ Hm Hne). simpl.
  rewrite IH. reflexivity.
Qed.


Lemma makeError_batch (items : list object) (eo : object) (message : string) :
  eo !! "message" = Some (VStr message) -> message <> "" ->
  _makeErrorResponsePayload (VArr (VObj <$> items)) (VObj eo)
  = Ok (VArr ((fun o => VObj (error_entry o eo message)) <$> items)).
Proof.
  intros Hm Hne. unfold _makeErrorResponsePayload. simpl.
  rewrite (errorEntries_message _ _ _ Hm Hne). reflexivity.
Qed.






(** The [map] callback of [_makeResponsePayload] on a result without an
    error. *)
Lemma responseEntry_success finalValue idx (o : object) finalResult err :
  get_index finalValue idx = Ok finalResult ->
  get finalResult "error" = Ok err -> truthy err = false ->
  exists result, get finalResult "result" = Ok result
    /\ responseEntry finalValue idx (VObj o) = Ok (VObj (success_entry o result)).
Proof.
  intros Hi He Ht.
  assert (exists result, get finalResult "result" = Ok result) as [result Hr].
  { destruct finalResult; simpl in *; try discriminate; eauto. }
  exists result. split; [done|].
  unfold responseEntry. rewrite Hi. simpl. rewrite He. simpl. rewrite Ht, Hr. simpl.
  unfold success_entry, extend, allProps.
  assert (Hext : ({[ "result" := result ]} : object) ∪ (o ∪ ∅) = <["result" := result]> o).
  { by rewrite (right_id ∅ (∪)), insert_union_singleton_l. }
  rewrite !Hext. by destruct (truthy (prop o "id")).
Qed.

Lemma success_entry_fields (o : object) (result : value) :
  success_entry o result !! "result" = Some result
  /\ success_entry o result !! "jsonrpc" = Some (VStr "2.0")
  /\ success_entry o result !! "id" = o !! "id"
  /\ success_entry o result !! "error" = o !! "error"
  /\ request_fields_by_id o (success_entry o result).
Proof.
  unfold success_entry, request_fields_by_id.
  destruct (truthy (prop o "id")); by simplify_map_eq.
Qed.

(** C10: in the shaping of a successful response, [params] and [method]
    are removed from an entry only when the id of the request item is
    truthy; when the id is absent, null, 0 or otherwise falsy, the entry
    keeps the [params] and [method] of the request next to [result] and
    [jsonrpc]. This holds for the callback that shapes each item of a
    batch, and so for a single request, which is shaped as the only item
    of a one-element batch. *)
Theorem request_fields_removed_only_for_truthy_id
    (finalValue : value) (idx : nat) (o : object) (finalResult err : value) :
  get_index finalValue idx = Ok finalResult ->
  get finalResult "error" = Ok err ->
  truthy err = false ->
  exists result e,
    get finalResult "result" = Ok result
    /\ responseEntry finalValue idx (VObj o) = Ok (VObj e)
    /\ _makeResponsePayload (VObj o) finalResult
       = responseEntry (VArr [finalResult]) 0 (VObj o)
    /\ e !! "result" = Some result
    /\ e !! "jsonrpc" = Some (VStr "2.0")
    /\ (truthy (prop o "id") = true -> e !! "params" = None /\ e !! "method" = None)
    /\ (truthy (prop o "id") = false ->
        e !! "params" = o !! "params" /\ e !! "method" = o !! "method").
Proof.
  intros Hi He Ht.
  destruct (responseEntry_success _ _ o _ _ Hi He Ht) as (result & Hr & Hentry).
  exists result, (success_entry o result).
  destruct (success_entry_fields o result) as (Hres & Hrpc & _ & _ & Hby).
  unfold request_fields_by_id in Hby.
  split_and!; try done.
  - unfold _makeResponsePayload. simpl.
    by destruct (responseEntry (VArr [finalResult]) 0 (VObj o)).
  - intros Hid. by rewrite Hid in Hby.
  - intros Hid. by rewrite Hid in Hby.
Qed.

(** *** Entries for the data model *)










(** A method name without a dollar sign is put between the quotes as it
    is, in place of the first quoted segment of the message. *)
Lemma substitution_plain (before matched after r : string) :
  plain r = true -> substitution before matched after r = r.
Proof.
  induction r as [|c r IH]; [reflexivity|]. simpl.
  destruct (Ascii.eqb c "$"); simpl; [discriminate|]. intros Hr. by rewrite IH.
Qed.

Lemma plain_app (s t : string) : plain (s ++ t) = plain s && plain t.
Proof.
  induction s as [|c s IH]; [done|]. simpl. rewrite IH. by destruct (Ascii.eqb c "$").
Qed.

Lemma templated_plain (message : string) (o : object) (name before matched after : string) :
  prop o "method" = VStr name ->
  plain name = true ->
  search message = Some (before, matched, after) ->
  templated message o = VStr (before ++ ("'" ++ name ++ "'") ++ after).
Proof.
  intros Hm Hp Hs. unfold templated, replace_quoted. rewrite Hs, Hm. simpl.
  rewrite substitution_plain; [done|]. by rewrite !plain_app, Hp.
Qed.

(** C7, at a method name that holds a replacement pattern: the method
    [$&] is denied, and the message of the entry holds the quoted
    placeholder twice over instead of the name of the method. *)
Theorem method_name_with_pattern_is_not_substituted :
  _makeErrorResponsePayload (VObj {[ "method" := VStr "$&"; "id" := num 1 ]})
                            ERRORS.METHOD_DENIED
  = Ok (VObj {[ "jsonrpc" := VStr "2.0"; "code" := num (-32601); "id" := num 1;
                "error" := VObj {[ "message" := VStr "Method ''__method__'' not allowed." ]} ]}).
Proof. vm_compute. reflexivity. Qed.

End ShapingFacts.

(** ** Properties of the request path *)

Section RequestFacts.
Context `{Builtins} `{Processors}.

Lemma sanitizeBatchEntry_spec (conn : owner_id) (o : object) :
  (denied_in_batch (VObj o) = false -> is_ok (sanitizePayload base conn (VObj o)) = true) ->
  exists p', sanitizeBatchEntry conn (VObj o) = Ok p'
             /\ batch_entry_sanitized conn (VObj o) p'.
Proof.
  intros Hok. unfold sanitizeBatchEntry, batch_entry_sanitized, denied_in_batch in *.
  simpl in *. destruct (strict_equal "eth_sendTransaction" (prop o "method")).
  - eexists. split; [done|]. split; [done|].
    simpl. unfold prop. by rewrite lookup_insert_eq.
  - destruct (sanitizePayload base conn (VObj o)) as [p'|e]; [eauto|].
    by specialize (Hok eq_refl).
Qed.

Lemma sanitizeBatch_spec (conn : owner_id) (l : list value) :
  Forall is_object l ->
  Forall (fun p => denied_in_batch p = false ->
                   is_ok (sanitizePayload base conn p) = true) l ->
  exists l', sanitizeBatch conn l = Ok l'
             /\ Forall2 (batch_entry_sanitized conn) l l'.
Proof.
  intros Hobj Hok. induction Hobj as [|p l [o ->] _ IH].
  - exists []. by split.
  - inversion_clear Hok as [|? ? Hp Hl].
    destruct (sanitizeBatchEntry_spec conn o Hp) as (p' & Hp' & Hs).
    destruct (IH Hl) as (l' & Hl' & Hss).
    exists (p' :: l'). split; [|by constructor].
    simpl. rewrite Hp'. simpl. by rewrite Hl'.
Qed.

(** A batch goes to a processor whatever its entries carry. *)
Lemma dispatch_batch (conn : owner_id) (l : list value) :
  exists name p,
    dispatch conn (VArr l)
    = (exec p conn (VArr l), [processor_exec name conn (VArr l)]).
Proof.
  unfold dispatch. simpl.
  destruct (_processors !! "undefined") as [p|]; by eauto.
Qed.

(** C1: in a batch, the sanitising marks each [eth_sendTransaction] entry
    with the batch-transaction-denied error (code -32603), and passes
    every other entry through the sanitising of the [base] processor;
    the batch is not thrown back as a single payload with an error is:
    it goes on to the [exec] of a processor, marked entries included. *)
Theorem batch_marks_transactions_and_sanitizes_siblings
    (st : state) (conn : connection) (payloadStr : string) (l : list value) :
  isConnected st (socket conn) = true ->
  parse payloadStr = Ok (VArr l) ->
  Forall is_object l ->
  Forall (fun p => denied_in_batch p = false ->
                   is_ok (sanitizePayload base (id conn) p) = true) l ->
  exists l',
    _sanitizeRequestPayload (id conn) (VArr l) = Ok (VArr l')
    /\ Forall2 (batch_entry_sanitized (id conn)) l l'
    /\ get ERRORS.BATCH_TX_DENIED "code" = Ok (num (-32603))
    /\ exists name p,
         onConnection st (Some conn) payloadStr
         = (exec p (id conn) (VArr l'), [processor_exec name (id conn) (VArr l')]).
Proof.
  intros Hconn Hparse Hobj Hok.
  destruct (sanitizeBatch_spec (id conn) l Hobj Hok) as (l' & Hl' & Hs).
  exists l'. split_and!; [by simpl; rewrite Hl'|done|done|].
  unfold onConnection. rewrite Hconn, Hparse. simpl. rewrite Hl'. simpl.
  apply dispatch_batch.
Qed.

(** *** What [settle] delivers *)








End RequestFacts.

(** ** Properties of the connection table *)

Section ConnectionFacts.
Context `{Builtins} `{Processors}.

(** *** The callbacks that are due *)

Lemma jobs_enqueue (o o' : owner_id) (js : list job) (st : state) :
  jobs (enqueue o js st) o' = if decide (o = o') then jobs st o ++ js else jobs st o'.
Proof. unfold jobs, enqueue. simpl. rewrite lookup_insert. by destruct (decide (o = o')). Qed.


Lemma jobs_enqueue_ne (o o' : owner_id) (js : list job) (st : state) :
  o <> o' -> jobs (enqueue o js st) o' = jobs st o'.
Proof. intros Hne. rewrite jobs_enqueue. by destruct (decide (o = o')). Qed.

Lemma jobs_taken (o o' : owner_id) (k : nat) (st : state) :
  jobs (with_queue <[o := delete k (jobs st o)]> st) o'
  = if decide (o = o') then delete k (jobs st o) else jobs st o'.
Proof. unfold jobs. simpl. rewrite lookup_insert. by destruct (decide (o = o')). Qed.

Lemma closings_added (o o' : owner_id) (cs : list closing) (st : state) :
  closings (with_destroying <[o := cs]> st) o'
  = if decide (o = o') then cs else closings st o'.
Proof. unfold closings. simpl. rewrite lookup_insert. by destruct (decide (o = o')). Qed.

Lemma delete_appended {A} (l : list A) (x : A) : delete (length l) (l ++ [x]) = l.
Proof. induction l as [|y l IH]; [done|]. simpl. by rewrite IH. Qed.



Lemma connects_due_app (js js' : list job) :
  connects_due (js ++ js') = (connects_due js + connects_due js')%nat.
Proof. unfold connects_due. by rewrite list.filter_app, length_app. Qed.

Lemma connects_due_taken (js : list job) (k : nat) (j : job) :
  js !! k = Some j ->
  connects_due js = (connects_due [j] + connects_due (delete k js))%nat.
Proof.
  intros Hk. rewrite <- connects_due_app. unfold connects_due.
  apply Permutation_length. apply filter_Permutation. simpl.
  by apply delete_Permutation.
Qed.


Lemma connects_due_resumes (r : res ()) (l : list awaiter) :
  connects_due (map (Resume r) l) = 0%nat.
Proof. by induction l. Qed.

(** *** The tables stay those of their owners *)


Lemma tables_owned_enqueue (o : owner_id) (js : list job) (st : state) :
  tables_owned st -> Forall (job_owned o) js -> tables_owned (enqueue o js st).
Proof.
  intros (Hc & Hp & Hj) Hjs. split_and!; [done|done|].
  intros o'. rewrite jobs_enqueue. destruct (decide (o = o')) as [<-|]; [|done].
  apply Forall_app. by split.
Qed.

Lemma tables_owned_taken (o : owner_id) (k : nat) (st : state) :
  tables_owned st -> tables_owned (with_queue <[o := delete k (jobs st o)]> st).
Proof.
  intros (Hc & Hp & Hj). split_and!; [done|done|].
  intros o'. rewrite jobs_taken. destruct (decide (o = o')) as [<-|]; [|done].
  by apply Forall_delete.
Qed.

Lemma tables_owned_with_connection (ownerId : owner_id) (st : state) :
  tables_owned st ->
  tables_owned (with_connections
        <[ownerId := {| id := ownerId; owner := ownerId; socket := ownerId |}]> st).
Proof.
  intros (Hc & Hp & Hj). split_and!; [|done|done]. intros o c. simpl.
  rewrite lookup_insert. destruct (decide (ownerId = o)) as [<-|]; [|by apply Hc].
  by intros [= <-].
Qed.

Lemma tables_owned_without_connection (ownerId : owner_id) (st : state) :
  tables_owned st -> tables_owned (with_connections (delete ownerId) st).
Proof.
  intros (Hc & Hp & Hj). split_and!; [|done|done]. intros o c. simpl.
  rewrite lookup_delete. destruct (decide (ownerId = o)); [done|]. apply Hc.
Qed.

Lemma tables_owned_with_pending (ownerId : owner_id) (p : pending) (st : state) :
  tables_owned st -> psocket p = ownerId -> Forall (owned ownerId) (awaiters p) ->
  tables_owned (with_connectionPromise <[ownerId := p]> st).
Proof.
  intros (Hc & Hp & Hj) Hs Ha. split_and!; [done| |done]. intros o q. simpl.
  rewrite lookup_insert. destruct (decide (ownerId = o)) as [<-|]; [|by apply Hp].
  by intros [= <-].
Qed.

Lemma getOrCreate_tables_owned (ownerId : owner_id) (a : awaiter) (st : state) :
  tables_owned st -> owned ownerId a ->
  tables_owned (fst (_getOrCreateConnection ownerId a st)).
Proof.
  intros Ht Ha. unfold _getOrCreateConnection.
  destruct (_connections st !! ownerId) as [conn|] eqn:Hc; simpl.
  - apply tables_owned_enqueue; [done|]. constructor; [|done].
    destruct Ht as (Hconn & _). by rewrite (Hconn _ _ Hc).
  - apply tables_owned_enqueue; [done|]. by repeat constructor.
Qed.

Lemma run_job_tables_owned (ownerId : owner_id) (j : job) (st : state) :
  tables_owned st -> job_owned ownerId j ->
  tables_owned (fst (run_job ownerId j st)).
Proof.
  intros Ht Hj. destruct j as [s a|s a|s|r a|isSync payloadStr payload conn]; simpl in *.
  - destruct Hj as [-> Ha]. unfold saveConnection.
    destruct (_connections st !! ownerId); simpl.
    + apply tables_owned_enqueue; [done|]. by repeat constructor.
    + apply tables_owned_enqueue; [by apply tables_owned_with_connection|].
      by repeat constructor.
  - destruct Hj as [-> Ha]. unfold checkConnected.
    destruct (negb _); [|apply tables_owned_enqueue; [done|by repeat constructor]].
    destruct (_connectionPromise st !! ownerId) as [p|] eqn:Hp.
    + destruct Ht as (Hc & Hpend & Hj). destruct (Hpend _ _ Hp) as [Hs Haw].
      apply tables_owned_with_pending; [done|done|]. simpl.
      apply Forall_app. split; [done|]. by constructor.
    + destruct (decide (node st = CONNECTED)).
      * apply tables_owned_enqueue; [|by repeat constructor].
        apply tables_owned_with_pending; [done|done|]. by repeat constructor.
      * apply tables_owned_with_pending; [done|done|]. by repeat constructor.
  - subst s. unfold socketConnect. simpl.
    destruct Ht as (Hc & Hpend & Hj). split_and!; [done| |done].
    intros o p. simpl. rewrite lookup_alter.
    destruct (decide (ownerId = o)) as [<-|]; [|by apply Hpend].
    destruct (_connectionPromise st !! ownerId) as [q|] eqn:Hq; [|done].
    intros [= <-]. simpl. by apply Hpend.
  - unfold resumed. destruct a as [w|isSync w payloadStr payload], r as [[]|e];
      simpl in *; try done.
    subst w. apply tables_owned_enqueue; [done|]. constructor; [|done].
    simpl. intros c Hc. destruct Ht as (Hconn & _). by apply Hconn.
  - done.
Qed.

Lemma onStateChange_jobs (s : node_state) (st : state) (o : owner_id) :
  jobs (onStateChange s st) o
  = jobs st o
    ++ match _connectionPromise st !! o with
       | Some p =>
           match stage p with
           | AwaitingNode => if decide (s = CONNECTED) then [SocketConnect (psocket p)] else []
           | _ => []
           end
       | None => []
       end.
Proof.
  unfold onStateChange. destruct (decide (s = CONNECTED)) as [->|].
  - unfold jobs. simpl. rewrite lookup_merge.
    destruct (queue st !! o) as [js|], (_connectionPromise st !! o) as [p|]; simpl;
      try by rewrite ?app_nil_r.
    + destruct (stage p); simpl; by rewrite ?app_nil_r.
    + by destruct (stage p).
  - destruct (_connectionPromise st !! o) as [p|]; [|by rewrite app_nil_r].
    destruct (stage p); by rewrite app_nil_r.
Qed.

Lemma onStateChange_pending (s : node_state) (st : state) (o : owner_id) :
  _connectionPromise (onStateChange s st) !! o
  = (fun p => match stage p with
              | AwaitingNode =>
                  if decide (s = CONNECTED)
                  then {| psocket := psocket p; stage := NodeConnected;
                          awaiters := awaiters p |}
                  else p
              | _ => p
              end) <$> _connectionPromise st !! o.
Proof.
  unfold onStateChange. destruct (decide (s = CONNECTED)) as [->|].
  - simpl. by rewrite lookup_fmap.
  - destruct (_connectionPromise st !! o) as [p|]; [|done]. simpl. by destruct (stage p).
Qed.

Lemma onStateChange_frame (s : node_state) (st : state) :
  _connections (onStateChange s st) = _connections st
  /\ node (onStateChange s st) = node st
  /\ connected (onStateChange s st) = connected st
  /\ destroying (onStateChange s st) = destroying st.
Proof. unfold onStateChange. by destruct (decide (s = CONNECTED)). Qed.

Lemma onStateChange_tables_owned (s : node_state) (st : state) :
  tables_owned st -> tables_owned (onStateChange s st).
Proof.
  intros (Hc & Hp & Hj). split_and!.
  - destruct (onStateChange_frame s st) as (-> & _). done.
  - intros o p. rewrite onStateChange_pending.
    destruct (_connectionPromise st !! o) as [q|] eqn:Hq; [|done].
    destruct (Hp _ _ Hq) as [Hs Ha]. simpl. intros [= <-].
    destruct (stage q); try done. by destruct (decide (s = CONNECTED)).
  - intros o. rewrite onStateChange_jobs. apply Forall_app. split; [done|].
    destruct (_connectionPromise st !! o) as [q|] eqn:Hq; [|done].
    destruct (Hp _ _ Hq) as [Hs Ha].
    destruct (stage q); try done.
    destruct (decide (s = CONNECTED)); by repeat constructor.
Qed.

Lemma onConnectSettled_tables_owned (o : owner_id) (r : res ()) (st : state) :
  tables_owned st -> tables_owned (onConnectSettled o r st).
Proof.
  intros Ht. unfold onConnectSettled.
  destruct (_connectionPromise st !! o) as [p|] eqn:Hp; [|done].
  destruct (stage p); try done.
  apply tables_owned_enqueue.
  - destruct Ht as (Hc & Hpend & Hj). split_and!; [done| |done].
    intros o' q. simpl. rewrite lookup_delete.
    destruct (decide (o = o')); [done|]. apply Hpend.
  - destruct Ht as (_ & Hpend & _). destruct (Hpend _ _ Hp) as [_ Ha].
    clear Hp. induction Ha; by constructor.
Qed.

(** Every step keeps the tables those of their owners. *)
Lemma step_tables_owned (i : input) (st : state) :
  tables_owned st -> tables_owned (fst (step i st)).
Proof.
  intros Ht. destruct i as [s|s|s payload|s payload|s d|s k|s r|s k r|s b|s ev data]; simpl.
  - by apply getOrCreate_tables_owned.
  - unfold _destroyConnection. by destruct (_connections st !! s).
  - unfold _sendRequest. destruct (parse payload); [|done].
    by apply getOrCreate_tables_owned.
  - unfold _sendRequest. destruct (parse payload); [|done].
    by apply getOrCreate_tables_owned.
  - by apply onStateChange_tables_owned.
  - destruct (jobs st s !! k) as [j|] eqn:Hk; [|done].
    apply run_job_tables_owned; [by apply tables_owned_taken|].
    destruct Ht as (_ & _ & Hj). specialize (Hj s).
    rewrite list.Forall_forall in Hj. apply Hj. by eapply list_elem_of_lookup_2.
  - by apply onConnectSettled_tables_owned.
  - destruct (closings st s !! k); [|done]. simpl.
    by apply tables_owned_without_connection.
  - done.
  - destruct (bool_decide _); [done|].
    destruct (String.eqb ev "connect"); [done|].
    by destruct (String.eqb ev "data-notification").
Qed.

(** So the tables of every state that the backend reaches are those of
    their owners. *)
Lemma run_tables_owned (inputs : list input) (st : state) :
  tables_owned st -> tables_owned (fst (run inputs st)).
Proof.
  revert st. induction inputs as [|i inputs IH]; intros st Ht; [done|].
  cbn [run]. pose proof (step_tables_owned i st Ht) as Ht'.
  destruct (step i st) as [st1 calls1]. cbn [fst] in Ht'.
  specialize (IH st1 Ht'). destruct (run inputs st1) as [st2 calls2]. done.
Qed.


(** *** [_destroyConnection] *)

(** C9, as amended: [_destroyConnection] tells the owner of an existing
    connection that its channel is no longer writable and calls
    [destroy] on the socket; the entry leaves the table when the promise
    of that [destroy] settles, whether it is resolved or rejected, and
    the connect operation of the owner is left as it is; without an
    entry the call does nothing at all. So a second call is a no-op once
    the destroy of the first has settled, and repeats the notification
    and the destroy while it has not. *)
Theorem destroyConnection_removes_entry_when_destroy_settles
    (st : state) (ownerId : owner_id) (r : res ()) :
  (_connections st !! ownerId = None -> _destroyConnection ownerId st = (st, []))
  /\ (forall conn, _connections st !! ownerId = Some conn ->
      let st1 := fst (_destroyConnection ownerId st) in
      let settled :=
        step (socket_destroy_settled ownerId (length (closings st ownerId)) r) st1 in
      snd (_destroyConnection ownerId st)
      = [ owner_send (owner conn) "ipcProvider-setWritable" (VBool false);
          socket_destroy (socket conn) ]
      /\ _connections st1 = _connections st
      /\ closings st1 ownerId = closings st ownerId ++ [ByRequest]
      /\ snd (_destroyConnection ownerId st1) = snd (_destroyConnection ownerId st)
      /\ _connections (fst settled) = delete ownerId (_connections st)
      /\ _connectionPromise (fst settled) = _connectionPromise st
      /\ closings (fst settled) ownerId = closings st ownerId
      /\ snd settled = match r with Ok _ => [] | Throw e => [unhandled_rejection e] end
      /\ _destroyConnection ownerId (fst settled) = (fst settled, [])).
Proof.
  split.
  - intros Hn. unfold _destroyConnection. by rewrite Hn.
  - intros conn Hc. cbn zeta.
    assert (Hd : _destroyConnection ownerId st
                 = (with_destroying <[ownerId := closings st ownerId ++ [ByRequest]]> st,
                    [ owner_send (owner conn) "ipcProvider-setWritable" (VBool false);
                      socket_destroy (socket conn) ])).
    { unfold _destroyConnection. by rewrite Hc. }
    rewrite Hd. cbn [fst snd].
    set (st1 := with_destroying <[ownerId := closings st ownerId ++ [ByRequest]]> st).
    assert (Hcl : closings st1 ownerId = closings st ownerId ++ [ByRequest]).
    { unfold st1. rewrite closings_added. by destruct (decide (ownerId = ownerId)). }
    assert (Hk : closings st1 ownerId !! length (closings st ownerId) = Some ByRequest).
    { rewrite Hcl. by apply list_lookup_middle. }
    assert (Hdel : delete (length (closings st ownerId)) (closings st1 ownerId)
                   = closings st ownerId).
    { rewrite Hcl. apply delete_appended. }
    cbn [step]. rewrite Hk, Hdel. unfold Hooks.onDestroySettled. cbn [fst snd].
    split_and!.
    + done.
    + done.
    + done.
    + unfold _destroyConnection.
      change (_connections st1 !! ownerId) with (_connections st !! ownerId).
      by rewrite Hc.
    + done.
    + done.
    + unfold closings. simpl. by rewrite lookup_insert_eq.
    + done.
    + unfold _destroyConnection. simpl. by rewrite lookup_delete_eq.
Qed.

(** *** The connections that the node-state handler works on *)

Lemma elem_of_live (st : state) (item : connection) :
  item ∈ live st
  <-> exists ownerId, _connections st !! ownerId = Some item
                     /\ isConnected st (socket item) = true.
Proof.
  unfold live. rewrite list_elem_of_filter, list_elem_of_fmap. split.
  - intros (Hc & [ownerId item'] & -> & Hin). apply elem_of_map_to_list in Hin. eauto.
  - intros (ownerId & Hl & Hc). split; [done|].
    exists (ownerId, item). split; [done|]. by apply elem_of_map_to_list.
Qed.

(** C8: when the node goes to STOPPING, the backend calls [disconnect] on
    the socket of every connection whose socket is connected, and on no
    other; the owner of each such connection is told that its channel is
    not writable as soon as its own disconnect has succeeded, whatever
    happens to the others; a failed disconnect is logged; the table of
    connections stays as it is. *)
Theorem stopping_disconnects_every_connected_socket
    (st : state) (disconnected : owner_id -> res ()) :
  let calls := snd (step (node_state_event STOPPING disconnected) st) in
  (forall ownerId item,
     _connections st !! ownerId = Some item ->
     isConnected st (socket item) = true ->
     socket_disconnect (socket item) ∈ calls
     /\ (is_ok (disconnected (socket item)) = true ->
         owner_send (owner item) "ipcProvider-setWritable" (VBool false) ∈ calls)
     /\ (is_ok (disconnected (socket item)) = false ->
         log_error "Error disconnecting sockets" ∈ calls))
  /\ (forall s, socket_disconnect s ∈ calls ->
        exists ownerId item, _connections st !! ownerId = Some item
                             /\ socket item = s /\ isConnected st s = true)
  /\ (forall w channel arg, owner_send w channel arg ∈ calls ->
        channel = "ipcProvider-setWritable" /\ arg = VBool false
        /\ exists ownerId item, _connections st !! ownerId = Some item
             /\ owner item = w /\ isConnected st (socket item) = true
             /\ is_ok (disconnected (socket item)) = true)
  /\ _connections (fst (step (node_state_event STOPPING disconnected) st))
     = _connections st.
Proof.
  assert (Hlive : live (with_node STOPPING st) = live st) by done.
  cbn [step fst snd]. unfold _onNodeStateChanged. rewrite Hlive.
  split_and!;
    [| | |by destruct (onStateChange_frame STOPPING (with_node STOPPING st)) as (-> & _)].
  - intros ownerId item Hc Hs.
    assert (Hin : item ∈ live st) by (apply elem_of_live; eauto).
    split_and!.
    + apply elem_of_app. left. apply list_elem_of_fmap. eauto.
    + intros Hok. apply elem_of_app. right. apply elem_of_app. left.
      apply list_elem_of_omap. exists item. split; [done|].
      by destruct (disconnected (socket item)).
    + intros Hfail. apply elem_of_app. right. apply elem_of_app. right.
      destruct (forallb _ (live st)) eqn:Hall; [|apply list_elem_of_here].
      rewrite forallb_forall in Hall.
      apply list_elem_of_In in Hin. apply Hall in Hin. congruence.
  - intros s Hin. rewrite !elem_of_app in Hin. destruct Hin as [Hin|[Hin|Hin]].
    + apply list_elem_of_fmap in Hin as (item & [= ->] & Hin).
      apply elem_of_live in Hin as (ownerId & Hc & Hs). eauto.
    + apply list_elem_of_omap in Hin as (item & _ & Hin).
      by destruct (disconnected (socket item)).
    + destruct (forallb _ (live st)); [by apply not_elem_of_nil in Hin|].
      apply list_elem_of_singleton in Hin. discriminate.
  - intros w channel arg Hin. rewrite !elem_of_app in Hin.
    destruct Hin as [Hin|[Hin|Hin]].
    + by apply list_elem_of_fmap in Hin as (item & [=] & _).
    + apply list_elem_of_omap in Hin as (item & Hin & Hsend).
      destruct (disconnected (socket item)) eqn:Hd; [|done].
      injection Hsend as <- <- <-.
      apply elem_of_live in Hin as (ownerId & Hc & Hs).
      split_and!; try done. exists ownerId, item. by rewrite Hd.
    + destruct (forallb _ (live st)); [by apply not_elem_of_nil in Hin|].
      apply list_elem_of_singleton in Hin. discriminate.
Qed.

(** *** Counting the connect attempts *)



Lemma settle_not_connect (isSync : bool) (ownerId : owner_id) (payload : value) (r : res value) :
  Forall not_connect (settle isSync ownerId payload r).
Proof.
  unfold settle. destruct (shaped payload r) as [v log] eqn:Hs.
  unfold shaped in Hs.
  assert (Hlog : Forall not_connect log).
  { destruct (r ≫= _makeResponsePayload payload); injection Hs as <- <-;
      repeat constructor. }
  apply Forall_app. split; [done|].
  destruct v; repeat constructor. unfold deliver. by destruct isSync.
Qed.

Lemma dispatch_not_connect (conn : owner_id) (finalPayload : value) :
  Forall not_connect (snd (dispatch conn finalPayload)).
Proof.
  unfold dispatch. destruct (get finalPayload "method"); [|by constructor].
  destruct (_processors !! _); [by repeat constructor|].
  destruct (bool_decide _); by repeat constructor.
Qed.

Lemma onConnection_not_connect (st : state) (conn : option connection) (payloadStr : string) :
  Forall not_connect (snd (onConnection st conn payloadStr)).
Proof.
  unfold onConnection. destruct conn as [conn|]; [|by constructor].
  destruct (negb _); [by constructor|].
  destruct (parse payloadStr ≫= _); [|by constructor].
  destruct (if isArray a then _ else _); [|by constructor].
  destruct (truthy _); [by constructor|]. apply dispatch_not_connect.
Qed.

Lemma resume_not_connect (st : state) (r : res ()) (a : awaiter) :
  Forall not_connect (resume st r a).
Proof.
  destruct a as [ownerId|isSync ownerId payloadStr payload], r as [[]|e]; simpl.
  - by repeat constructor.
  - by repeat constructor.
  - pose proof (onConnection_not_connect st (_connections st !! ownerId) payloadStr) as Hc.
    destruct (onConnection st (_connections st !! ownerId) payloadStr) as [result calls].
    constructor; [done|]. apply Forall_app. split; [done|]. apply settle_not_connect.
  - apply settle_not_connect.
Qed.

Lemma onNodeStateChanged_not_connect (s : node_state) (disconnected : owner_id -> res ())
    (st : state) :
  Forall not_connect (_onNodeStateChanged s disconnected st).
Proof.
  unfold _onNodeStateChanged. destruct s; try by constructor.
  rewrite !Forall_app. split_and!.
  - apply Forall_fmap. by apply Forall_true.
  - apply list.Forall_forall. intros c Hc.
    apply list_elem_of_omap in Hc as (item & _ & Hc).
    destruct (disconnected (socket item)); [|done]. by injection Hc as <-.
  - destruct (forallb _ _); by repeat constructor.
Qed.

(** *** The calls that are made for an owner *)

Lemma settle_reply (isSync : bool) (ownerId : owner_id) (payload : value) (r : res value) :
  Forall (reply_to ownerId) (settle isSync ownerId payload r).
Proof.
  unfold settle. destruct (shaped payload r) as [v log] eqn:Hs.
  unfold shaped in Hs.
  assert (Hlog : Forall (reply_to ownerId) log).
  { destruct (r ≫= _makeResponsePayload payload); injection Hs as <- <-;
      repeat constructor. }
  apply Forall_app. split; [done|].
  destruct v; repeat constructor. unfold deliver. by destruct isSync.
Qed.

Lemma dispatch_reply (conn : owner_id) (finalPayload : value) :
  Forall (reply_to conn) (snd (dispatch conn finalPayload)).
Proof.
  unfold dispatch. destruct (get finalPayload "method"); [|by constructor].
  destruct (_processors !! _); [by repeat constructor|].
  destruct (bool_decide _); by repeat constructor.
Qed.

Lemma onConnection_reply (st : state) (ownerId : owner_id) (conn : option connection)
    (payloadStr : string) :
  (forall c, conn = Some c -> id c = ownerId) ->
  Forall (reply_to ownerId) (snd (onConnection st conn payloadStr)).
Proof.
  intros Hid. unfold onConnection. destruct conn as [conn|]; [|by constructor].
  destruct (negb _); [by constructor|].
  destruct (parse payloadStr ≫= _); [|by constructor].
  destruct (if isArray a then _ else _); [|by constructor].
  destruct (truthy _); [by constructor|].
  rewrite (Hid conn eq_refl). apply dispatch_reply.
Qed.

Lemma reply_addressed (o : owner_id) (calls : list call) :
  Forall (reply_to o) calls -> Forall (addressed_to o) calls.
Proof. apply Forall_impl. by intros []. Qed.


Lemma respond_not_connect (isSync : bool) (ownerId : owner_id) (payloadStr : string)
    (payload : value) (conn : option connection) (st : state) :
  Forall not_connect (respond isSync ownerId payloadStr payload conn st).
Proof.
  unfold respond.
  pose proof (onConnection_not_connect st conn payloadStr) as Hc.
  destruct (onConnection st conn payloadStr) as [result calls].
  apply Forall_app. split; [done|]. apply settle_not_connect.
Qed.

Lemma getOrCreate_not_connect (ownerId : owner_id) (a : awaiter) (st : state) :
  Forall not_connect (snd (_getOrCreateConnection ownerId a st)).
Proof.
  unfold _getOrCreateConnection. destruct (_connections st !! ownerId); by repeat constructor.
Qed.

Lemma sendRequest_not_connect (isSync : bool) (ownerId : owner_id) (payload : string)
    (st : state) :
  Forall not_connect (snd (_sendRequest isSync ownerId payload st)).
Proof.
  unfold _sendRequest. destruct (parse payload); [apply getOrCreate_not_connect|].
  apply settle_not_connect.
Qed.

(** The only call of [socket.connect] is the one of the callback of the
    connect operation. *)
Lemma step_connect (i : input) (st : state) :
  match i with
  | callback o k =>
      match jobs st o !! k with
      | Some (SocketConnect s) => snd (step i st) = [socket_connect s 5000]
      | _ => Forall not_connect (snd (step i st))
      end
  | _ => Forall not_connect (snd (step i st))
  end.
Proof.
  destruct i as [s|s|s payload|s payload|s d|s k|s r|s k r|s b|s ev data]; cbn [step].
  - apply getOrCreate_not_connect.
  - unfold _destroyConnection. destruct (_connections st !! s); by repeat constructor.
  - apply sendRequest_not_connect.
  - apply sendRequest_not_connect.
  - apply onNodeStateChanged_not_connect.
  - destruct (jobs st s !! k) as [j|]; [|by constructor].
    destruct j as [s' a|s' a|s'|r a|isSync payloadStr payload conn]; cbn [run_job snd].
    + unfold saveConnection. destruct (_connections _ !! s); by repeat constructor.
    + by constructor.
    + done.
    + unfold resumed. destruct a as [w|isSync w payloadStr payload], r as [[]|e];
        cbn [fst snd]; try apply resume_not_connect. by repeat constructor.
    + apply respond_not_connect.
  - by constructor.
  - destruct (closings st s !! k) as [c|]; [|by constructor].
    unfold Hooks.onDestroySettled. cbn [snd]. destruct c, r; by repeat constructor.
  - by constructor.
  - destruct (bool_decide _); [by repeat constructor|].
    destruct (String.eqb ev "connect"); [by repeat constructor|].
    destruct (String.eqb ev "data-notification"); [|by constructor]. cbn [snd].
    unfold Hooks.onDataNotification.
    destruct (get data "error") as [err|]; [|by constructor]. simpl.
    destruct (if truthy err then _ else _); by repeat constructor.
Qed.

Lemma respond_reply (isSync : bool) (ownerId : owner_id) (payloadStr : string)
    (payload : value) (conn : option connection) (st : state) :
  (forall c, conn = Some c -> id c = ownerId) ->
  Forall (reply_to ownerId) (respond isSync ownerId payloadStr payload conn st).
Proof.
  intros Hid. unfold respond.
  pose proof (onConnection_reply st ownerId conn payloadStr Hid) as Hc.
  destruct (onConnection st conn payloadStr) as [result calls].
  apply Forall_app. split; [done|]. apply settle_reply.
Qed.

Lemma apart_refl (ownerId : owner_id) (st : state) : apart ownerId st st.
Proof. by intros o _. Qed.

Lemma apart_trans (ownerId : owner_id) (st1 st2 st3 : state) :
  apart ownerId st1 st2 -> apart ownerId st2 st3 -> apart ownerId st1 st3.
Proof.
  intros H12 H23 o Ho. destruct (H12 o Ho) as (<- & <- & <- & <-). by apply H23.
Qed.

Lemma apart_with_connections (ownerId : owner_id) (f : gmap owner_id connection -> _)
    (st : state) :
  (forall m o, o <> ownerId -> f m !! o = m !! o) ->
  apart ownerId st (with_connections f st).
Proof. intros Hf o Ho. simpl. by rewrite Hf. Qed.

Lemma apart_with_pending (ownerId : owner_id) (f : gmap owner_id pending -> _)
    (st : state) :
  (forall m o, o <> ownerId -> f m !! o = m !! o) ->
  apart ownerId st (with_connectionPromise f st).
Proof. intros Hf o Ho. simpl. by rewrite Hf. Qed.

Lemma apart_enqueue (ownerId : owner_id) (js : list job) (st : state) :
  apart ownerId st (enqueue ownerId js st).
Proof. intros o Ho. split_and!; try done. by apply jobs_enqueue_ne. Qed.

Lemma apart_taken (ownerId : owner_id) (k : nat) (st : state) :
  apart ownerId st (with_queue <[ownerId := delete k (jobs st ownerId)]> st).
Proof.
  intros o Ho. split_and!; try done. rewrite jobs_taken.
  by destruct (decide (ownerId = o)).
Qed.

Lemma apart_with_destroying (ownerId : owner_id) (cs : list closing) (st : state) :
  apart ownerId st (with_destroying <[ownerId := cs]> st).
Proof.
  intros o Ho. split_and!; try done. rewrite closings_added.
  by destruct (decide (ownerId = o)).
Qed.

Lemma getOrCreate_owned (ownerId : owner_id) (a : awaiter) (st : state) :
  Forall (addressed_to ownerId) (snd (_getOrCreateConnection ownerId a st))
  /\ apart ownerId st (fst (_getOrCreateConnection ownerId a st)).
Proof.
  unfold _getOrCreateConnection. destruct (_connections st !! ownerId); cbn [fst snd].
  - split; [constructor|apply apart_enqueue].
  - split; [by repeat constructor|apply apart_enqueue].
Qed.

Lemma run_job_owned (ownerId : owner_id) (j : job) (st : state) :
  tables_owned st -> job_owned ownerId j ->
  Forall (addressed_to ownerId) (snd (run_job ownerId j st))
  /\ apart ownerId st (fst (run_job ownerId j st)).
Proof.
  intros Ht Hj. destruct j as [s a|s a|s|r a|isSync payloadStr payload conn];
    cbn [run_job job_owned] in *.
  - destruct Hj as [-> Ha]. unfold saveConnection.
    destruct (_connections st !! ownerId); cbn [fst snd].
    + split; [constructor|apply apart_enqueue].
    + split; [by repeat constructor|].
      eapply apart_trans; [|apply apart_enqueue].
      apply apart_with_connections. intros m o Ho. by rewrite lookup_insert_ne.
  - destruct Hj as [-> Ha]. cbn [fst snd]. split; [constructor|].
    unfold checkConnected. destruct (negb _); [|apply apart_enqueue].
    destruct (_connectionPromise st !! ownerId).
    + apply apart_with_pending. intros m o Ho. by rewrite lookup_insert_ne.
    + destruct (decide (node st = CONNECTED)).
      * eapply apart_trans; [|apply apart_enqueue].
        apply apart_with_pending. intros m o Ho. by rewrite lookup_insert_ne.
      * apply apart_with_pending. intros m o Ho. by rewrite lookup_insert_ne.
  - subst s. unfold socketConnect. cbn [fst snd]. split; [by repeat constructor|].
    apply apart_with_pending. intros m o Ho. by rewrite lookup_alter_ne.
  - unfold resumed.
    destruct a as [w|isSync w payloadStr payload], r as [[]|e]; cbn [fst snd owned] in *;
      subst w.
    + split; [by repeat constructor|apply apart_refl].
    + split; [by repeat constructor|apply apart_refl].
    + split; [by repeat constructor|apply apart_enqueue].
    + split; [|apply apart_refl]. apply reply_addressed, settle_reply.
  - cbn [fst snd]. split; [|apply apart_refl].
    apply reply_addressed, respond_reply. intros c Hc. by rewrite (Hj c Hc).
Qed.

(** What a step does on an input of an owner is for that owner, and
    leaves the others, the node and the sockets as they are. *)
Lemma step_owned (ownerId : owner_id) (i : input) (st : state) :
  tables_owned st -> of_owner ownerId i ->
  Forall (addressed_to ownerId) (snd (step i st))
  /\ apart ownerId st (fst (step i st))
  /\ node (fst (step i st)) = node st
  /\ connected (fst (step i st)) = connected st.
Proof.
  intros Ht Hi.
  assert (Hframe : forall o a, node (fst (_getOrCreateConnection o a st)) = node st
                   /\ connected (fst (_getOrCreateConnection o a st)) = connected st).
  { intros o a. unfold _getOrCreateConnection. by destruct (_connections st !! o). }
  destruct i as [s|s|s payload|s payload|s d|s k|s r|s k r|s b|s ev data];
    cbn [of_owner] in Hi; try done; subst s; cbn [step].
  - destruct (getOrCreate_owned ownerId (AwaitCreate ownerId) st) as [Ha Hp].
    destruct (Hframe ownerId (AwaitCreate ownerId)). done.
  - unfold _destroyConnection.
    destruct (_connections st !! ownerId) as [conn|] eqn:Hconn; cbn [fst snd].
    + destruct Ht as (Hc & _). rewrite (Hc _ _ Hconn). cbn [owner socket].
      split_and!; [by repeat constructor|apply apart_with_destroying|done|done].
    + split_and!; [constructor|apply apart_refl|done|done].
  - unfold _sendRequest. destruct (parse payload) as [parsed|e].
    + destruct (getOrCreate_owned ownerId (AwaitSend false ownerId payload parsed) st).
      destruct (Hframe ownerId (AwaitSend false ownerId payload parsed)). done.
    + cbn [fst snd]. split_and!; [|apply apart_refl|done|done].
      apply reply_addressed, settle_reply.
  - unfold _sendRequest. destruct (parse payload) as [parsed|e].
    + destruct (getOrCreate_owned ownerId (AwaitSend true ownerId payload parsed) st).
      destruct (Hframe ownerId (AwaitSend true ownerId payload parsed)). done.
    + cbn [fst snd]. split_and!; [|apply apart_refl|done|done].
      apply reply_addressed, settle_reply.
  - destruct (jobs st ownerId !! k) as [j|] eqn:Hk; cbn [fst snd];
      [|by split_and!; [constructor|apply apart_refl|done|done]].
    assert (Hj : job_owned ownerId j).
    { destruct Ht as (_ & _ & Hj). specialize (Hj ownerId).
      rewrite list.Forall_forall in Hj. apply Hj. by eapply list_elem_of_lookup_2. }
    destruct (run_job_owned ownerId j _ (tables_owned_taken ownerId k st Ht) Hj)
      as [Ha Hp].
    split_and!; [done|by eapply apart_trans; [apply apart_taken|]| |].
    + destruct j as [s a|s a|s|r a|isSync payloadStr payload conn]; cbn [run_job].
      * unfold saveConnection. by destruct (_connections _ !! ownerId).
      * unfold checkConnected. destruct (negb _); [|done].
        destruct (_connectionPromise _ !! ownerId); [done|]. by destruct (decide _).
      * done.
      * unfold resumed. by destruct a, r as [[]|].
      * done.
    + destruct j as [s a|s a|s|r a|isSync payloadStr payload conn]; cbn [run_job].
      * unfold saveConnection. by destruct (_connections _ !! ownerId).
      * unfold checkConnected. destruct (negb _); [|done].
        destruct (_connectionPromise _ !! ownerId); [done|]. by destruct (decide _).
      * done.
      * unfold resumed. by destruct a, r as [[]|].
      * done.
  - cbn [fst snd]. split_and!; [constructor| | |].
    + unfold onConnectSettled.
      destruct (_connectionPromise st !! ownerId) as [p|]; [|apply apart_refl].
      destruct (stage p); try apply apart_refl.
      eapply apart_trans; [|apply apart_enqueue].
      apply apart_with_pending. intros m o Ho. by rewrite lookup_delete_ne.
    + unfold onConnectSettled. destruct (_connectionPromise st !! ownerId) as [p|]; [|done].
      by destruct (stage p).
    + unfold onConnectSettled. destruct (_connectionPromise st !! ownerId) as [p|]; [|done].
      by destruct (stage p).
  - destruct (closings st ownerId !! k) as [c|]; cbn [fst snd];
      [|by split_and!; [constructor|apply apart_refl|done|done]].
    unfold Hooks.onDestroySettled. cbn [fst snd].
    split_and!; [by destruct c, r; repeat constructor| |done|done].
    eapply apart_trans; [apply apart_with_destroying|].
    apply apart_with_connections. intros m o Ho. by rewrite lookup_delete_ne.
  - destruct (bool_decide _).
    { unfold Hooks.onSocketGone. cbn [fst snd].
      split_and!; [by repeat constructor|apply apart_with_destroying|done|done]. }
    destruct (String.eqb ev "connect").
    { cbn [fst snd]. split_and!; [by repeat constructor|apply apart_refl|done|done]. }
    destruct (String.eqb ev "data-notification");
      [|by split_and!; [constructor|apply apart_refl|done|done]].
    cbn [fst snd]. split_and!; [|apply apart_refl|done|done].
    unfold Hooks.onDataNotification.
    destruct (get data "error") as [err|]; [|by constructor]. simpl.
    destruct (if truthy err then _ else _); by repeat constructor.
Qed.


(** *** The connect operation of an owner *)















End ConnectionFacts.

(** ** The theorems on the sample requests *)

Section Runs.
Import Reference Sample.

Lemma request_fields_removed_only_for_truthy_id_witness :
  get_index (VArr [success]) 0 = Ok success
  /\ get success "error" = Ok VUndef
  /\ truthy VUndef = false
  /\ exists e,
       responseEntry (VArr [success]) 0 (VObj notification) = Ok (VObj e)
       /\ e !! "params" = Some (VArr [VStr "newHeads"])
       /\ e !! "method" = Some (VStr "eth_subscribe")
       /\ e !! "result" = Some (VStr "0x1").
Proof.
  split; [reflexivity|]. split; [reflexivity|]. split; [reflexivity|].
  destruct (request_fields_removed_only_for_truthy_id
              (VArr [success]) 0 notification success VUndef
              eq_refl eq_refl eq_refl)
    as (result & e & Hr & He & _ & Hres & _ & _ & Hkeep).
  exists e. split; [exact He|].
  destruct (Hkeep eq_refl) as [Hp Hm].
  split; [exact Hp|]. split; [exact Hm|].
  rewrite Hres. f_equal. injection Hr as <-. reflexivity.
Defined.

Lemma batch_marks_transactions_and_sanitizes_siblings_witness :
  isConnected online (socket conn) = true
  /\ parse batch_text = Ok (VArr batch)
  /\ Forall is_object batch
  /\ Forall (fun p => denied_in_batch p = false ->
                      is_ok (sanitizePayload base (id conn) p) = true) batch
  /\ exists l',
       _sanitizeRequestPayload (id conn) (VArr batch) = Ok (VArr l')
       /\ Forall2 (batch_entry_sanitized (id conn)) batch l'
       /\ get ERRORS.BATCH_TX_DENIED "code" = Ok (num (-32603))
       /\ exists name p,
            onConnection online (Some conn) batch_text
            = (exec p (id conn) (VArr l'), [processor_exec name (id conn) (VArr l')]).
Proof.
  assert (H1 : isConnected online (socket conn) = true) by reflexivity.
  assert (H2 : parse batch_text = Ok (VArr batch)) by (vm_compute; reflexivity).
  assert (H3 : Forall is_object batch).
  { repeat constructor; eexists; reflexivity. }
  assert (H4 : Forall (fun p => denied_in_batch p = false ->
                               is_ok (sanitizePayload base (id conn) p) = true) batch).
  { repeat constructor; intros _; vm_compute; reflexivity. }
  split; [exact H1|]. split; [exact H2|]. split; [exact H3|]. split; [exact H4|].
  exact (batch_marks_transactions_and_sanitizes_siblings
           online conn batch_text batch H1 H2 H3 H4).
Defined.





(** A request that brings an [error] field of its own keeps it next to
    the result. *)
Example entry_for_request_with_error_field_has_both :
  exists e,
    _makeResponsePayload (VObj (<["error" := VStr "x"]> call_request)) success = Ok (VObj e)
    /\ e !! "result" = Some (VStr "0x1")
    /\ e !! "error" = Some (VStr "x").
Proof.
  eexists. split; [vm_compute; reflexivity|].
  split; vm_compute; reflexivity.
Qed.




(** C9, as stated, fails for two calls in a row: the second one finds the
    entry still in the table, and tells the owner and destroys the
    socket once more. *)
Lemma second_destroy_before_settlement_repeats_the_calls :
  snd (run [ipcProvider_destroy window; ipcProvider_destroy window] online)
  = [ owner_send window "ipcProvider-setWritable" (VBool false);
      socket_destroy window;
      owner_send window "ipcProvider-setWritable" (VBool false);
      socket_destroy window ]
  /\ snd (run [ipcProvider_destroy window] online)
     = [ owner_send window "ipcProvider-setWritable" (VBool false);
         socket_destroy window ]
  /\ run [ipcProvider_destroy window; ipcProvider_destroy window] online
     <> run [ipcProvider_destroy window] online.
Proof.
  split; [vm_compute; reflexivity|]. split; [vm_compute; reflexivity|].
  intros Heq. apply (f_equal (fun x => length (snd x))) in Heq.
  vm_compute in Heq. discriminate.
Qed.

(** *** Whole requests, from the IPC call to the answer

    The callbacks run one after the other, each as soon as it is due. *)

(** The connect settles and the socket is connected: the request goes to
    the [base] processor and its answer comes back without [method]. *)
Example request_is_answered :
  snd (run [ ipcProvider_write window call_text;
             callback window 0; callback window 0; callback window 0;
             socket_isConnected window true;
             socket_connect_settled window (Ok ());
             callback window 0; callback window 0 ] (init CONNECTED))
  = Sockets_get window :: map (socket_on window) hooks
    ++ [ socket_connect window 5000;
         owner_send window "ipcProvider-setWritable" (VBool true);
         processor_exec "base" window (VObj call_request);
         deliver false window
           (VObj {[ "jsonrpc" := VStr "2.0"; "id" := num 7; "result" := VStr "0x1" ]}) ].
Proof. vm_compute. reflexivity. Qed.

(** The connect settles, but the socket is not connected. *)
Example request_on_unconnected_socket :
  snd (run [ ipcProvider_write window call_text;
             callback window 0; callback window 0; callback window 0;
             socket_connect_settled window (Ok ());
             callback window 0; callback window 0 ] (init CONNECTED))
  = Sockets_get window :: map (socket_on window) hooks
    ++ [ socket_connect window 5000;
         owner_send window "ipcProvider-setWritable" (VBool true);
         log_error "Send request failed";
         deliver false window
           (VObj {[ "jsonrpc" := VStr "2.0"; "code" := num (-32603); "id" := num 7;
                    "error" := VObj {[ "message" :=
                       VStr "Request timed out for method  'eth_call'." ]} ]}) ].
Proof. vm_compute. reflexivity. Qed.

(** The connect fails: the request is answered with the failure. *)
Example request_on_refused_connect :
  snd (run [ ipcProvider_writeSync window call_text;
             callback window 0; callback window 0; callback window 0;
             socket_connect_settled window refused;
             callback window 0 ] (init CONNECTED))
  = Sockets_get window :: map (socket_on window) hooks
    ++ [ socket_connect window 5000;
         log_error "Send request failed";
         deliver true window
           (VObj {[ "jsonrpc" := VStr "2.0"; "code" := VUndef; "id" := num 7;
                    "error" := VObj {[ "message" := VStr "connect ECONNREFUSED" ]} ]}) ].
Proof. vm_compute. reflexivity. Qed.

(** A denied method never reaches a processor. *)
Example denied_request_is_answered :
  snd (run [ ipcProvider_write window admin_text;
             callback window 0; callback window 0; callback window 0;
             callback window 0 ] online)
  = [ owner_send window "ipcProvider-setWritable" (VBool true);
      log_error "Send request failed";
      deliver false window
        (VObj {[ "jsonrpc" := VStr "2.0"; "code" := num (-32601); "id" := num 7;
                 "error" := VObj {[ "message" :=
                    VStr "Method 'admin_peers' not allowed." ]} ]}) ].
Proof. vm_compute. reflexivity. Qed.

(** A batch with a transaction: the transaction is denied in its place,
    the other entry is answered. *)
Example batch_is_answered :
  snd (run [ ipcProvider_write window batch_text;
             callback window 0; callback window 0; callback window 0;
             callback window 0 ] online)
  = [ owner_send window "ipcProvider-setWritable" (VBool true);
      processor_exec "base" window
        (VArr [ VObj (<["error" := ERRORS.BATCH_TX_DENIED]> send_request);
                VObj call_request ]);
      deliver false window
        (VArr [ VObj {[ "jsonrpc" := VStr "2.0"; "code" := num (-32603); "id" := num 1;
                        "error" := VObj {[ "message" :=
                           VStr "Transactions denied, sendTransaction is not allowed in batch requests." ]} ]};
                VObj {[ "jsonrpc" := VStr "2.0"; "id" := num 7;
                        "result" := VStr "0x1" ]} ]) ].
Proof. vm_compute. reflexivity. Qed.

(** Two calls that arrive before the first callback has run both take
    the socket; the connection is saved, and the listeners are put on
    it, once. *)
Example two_calls_in_a_row_take_the_socket_twice :
  snd (run [ ipcProvider_create window; ipcProvider_create window;
             callback window 0; callback window 0 ] (init STARTING))
  = Sockets_get window :: Sockets_get window :: map (socket_on window) hooks.
Proof. vm_compute. reflexivity. Qed.

(** After a connect that failed, the next call connects again. *)
Example later_call_connects_again :
  connects window
    (snd (run [ ipcProvider_create window;
                callback window 0; callback window 0; callback window 0;
                socket_connect_settled window refused; callback window 0;
                ipcProvider_create window;
                callback window 0; callback window 0; callback window 0 ]
              (init CONNECTED))) = 2%nat.
Proof. vm_compute. reflexivity. Qed.

(** A request that is on its way when the owner destroys its connection
    is sent on all the same when the destroy has not settled by the time
    the connection is taken. *)
Example request_is_sent_on_while_destroy_is_in_flight :
  snd (run [ ipcProvider_write window call_text;
             callback window 0; callback window 0;
             ipcProvider_destroy window;
             callback window 0; callback window 0 ] online)
  = [ owner_send window "ipcProvider-setWritable" (VBool false);
      socket_destroy window;
      owner_send window "ipcProvider-setWritable" (VBool true);
      processor_exec "base" window (VObj call_request);
      deliver false window
        (VObj {[ "jsonrpc" := VStr "2.0"; "id" := num 7; "result" := VStr "0x1" ]}) ].
Proof. vm_compute. reflexivity. Qed.

(** Two requests wait for the same connect: when it has settled, the
    last callback of [_getOrCreateConnection] is due for each, in the
    order of the calls; run in the order in which they are due, the
    owner is told twice that it can write before either request goes
    on. *)
Example awaiters_are_told_before_their_requests_go_on :
  snd (run [ socket_isConnected window true;
             socket_connect_settled window (Ok ());
             callback window 0; callback window 0;
             callback window 0; callback window 0 ]
         (fst (run [ ipcProvider_write window call_text;
                     ipcProvider_writeSync window call_text;
                     callback window 0; callback window 0;
                     callback window 0; callback window 0; callback window 0 ]
                   (init CONNECTED))))
  = [ owner_send window "ipcProvider-setWritable" (VBool true);
      owner_send window "ipcProvider-setWritable" (VBool true);
      processor_exec "base" window (VObj call_request);
      deliver false window
        (VObj {[ "jsonrpc" := VStr "2.0"; "id" := num 7; "result" := VStr "0x1" ]});
      processor_exec "base" window (VObj call_request);
      deliver true window
        (VObj {[ "jsonrpc" := VStr "2.0"; "id" := num 7; "result" := VStr "0x1" ]}) ].
Proof. vm_compute. reflexivity. Qed.

(** The callback that calls [socket.connect] is due once the node has
    been CONNECTED; it runs all the same when the node has left that
    state in the meantime. *)
Example connect_after_the_node_has_left_connected :
  snd (step (callback window 0)
         (fst (run [ ipcProvider_create window; callback window 0; callback window 0;
                     node_state_event CONNECTED (fun _ => Ok ());
                     node_state_event STOPPING (fun _ => Ok ()) ]
                   (init STARTING))))
  = [socket_connect window 5000]
  /\ node (fst (step (callback window 0)
                 (fst (run [ ipcProvider_create window; callback window 0;
                             callback window 0;
                             node_state_event CONNECTED (fun _ => Ok ());
                             node_state_event STOPPING (fun _ => Ok ()) ]
                           (init STARTING)))))
     = STOPPING.
Proof. split; vm_compute; reflexivity. Qed.

End Runs.

(** ** Properties of [_.get] *)

Section UnderscoreFacts.

Lemma split_cons (s : string) : exists f fs, Underscore.split s = f :: fs.
Proof.
  induction s as [|c s (f & fs & IH)]; simpl; [by eauto|].
  destruct (Ascii.eqb c "."); [by eauto|]. rewrite IH. by eauto.
Qed.

Lemma split_dotless (k : string) :
  Underscore.dotless k = true -> Underscore.split k = [k].
Proof.
  induction k as [|c k IH]; [done|]. simpl.
  destruct (Ascii.eqb c "."); [done|]. simpl. intros Hk. by rewrite IH.
Qed.

Lemma split_dotted (k rest : string) :
  Underscore.dotless k = true ->
  Underscore.split (k ++ "." ++ rest) = k :: Underscore.split rest.
Proof.
  induction k as [|c k IH]; [done|]. simpl.
  destruct (Ascii.eqb c "."); [done|]. simpl. intros Hk. by rewrite IH.
Qed.

Lemma walk_result (fields : list string) (result fallbackValue v : value) :
  Underscore.walk fields result fallbackValue = Some v ->
  v = fallbackValue \/ truthy v = true.
Proof.
  revert result. induction fields as [|f fields IH]; intros result; simpl.
  - destruct (truthy result) eqn:Ht; intros [= <-]; auto.
  - destruct (Underscore.isObject result); [|intros [= <-]; auto].
    destruct (Underscore.member result f) as [r|]; [|done]. apply IH.
Qed.

(** X1: what [_.get] returns is the fallback value or a truthy value: a
    property that is there but falsy (0, the empty string, false, null)
    is answered by the fallback value. *)
Theorem get_returns_fallback_or_truthy (obj path fallbackValue v : value) :
  Underscore.get obj path fallbackValue = Some v ->
  v = fallbackValue \/ truthy v = true.
Proof.
  unfold Underscore.get.
  destruct obj, path; try (intros [= <-]; by left); apply walk_result.
Qed.

(** X2: without an object to look into, or without a string for a path,
    [_.get] answers with the fallback value, whatever the path is. *)
Theorem get_without_object_or_path (obj path fallbackValue : value) :
  Underscore.isObject obj = false \/ (forall p, path <> VStr p) ->
  Underscore.get obj path fallbackValue = Some fallbackValue.
Proof.
  intros [Ho|Hp]; unfold Underscore.get.
  - destruct obj; try discriminate; try done;
      destruct path; try done;
      destruct (split_cons s0) as (f & fs & ->) || destruct (split_cons s) as (f & fs & ->);
      done.
  - destruct path; try by destruct obj. by destruct (Hp s).
Qed.

(** X3: a path [k.rest] is looked up in two steps: the field [k] of the
    object, then [rest] from there; a single field gives the property,
    or the fallback value when the property is missing or falsy. *)
Theorem get_nested (o : object) (k rest : string) (fallbackValue : value) :
  Underscore.dotless k = true ->
  k ∉ inherited ->
  Underscore.get (VObj o) (VStr (k ++ "." ++ rest)) fallbackValue
  = Underscore.get (prop o k) (VStr rest) fallbackValue
  /\ Underscore.get (VObj o) (VStr k) fallbackValue
     = Some (if truthy (prop o k) then prop o k else fallbackValue).
Proof.
  intros Hk Hin. unfold Underscore.get at 1 3.
  rewrite (split_dotted _ _ Hk), (split_dotless _ Hk). simpl.
  rewrite bool_decide_eq_false_2 by done. simpl. split; [|done].
  destruct (split_cons rest) as (f & fs & Hs).
  unfold Underscore.get. destruct (prop o k); rewrite ?Hs; done.
Qed.

End UnderscoreFacts.

(** ** More on the shaping steps *)

Section ErrorPayloadFacts.
Context `{Builtins}.

Lemma errorEntry_stripped (item error : value) (e : object) (error' : value) :
  errorEntry item error = Ok (e, error') -> stripped_entry item (VObj e).
Proof.
  unfold errorEntry. intros He.
  destruct (if truthy (prop (extend {[ "jsonrpc" := VStr "2.0" ]} error) "message")
            then _ else _) as [[e0 error0]|] eqn:H0; [|done].
  simpl in He. destruct (get item "id") as [id|] eqn:Hid; [|done].
  simpl in He. injection He as <- <-.
  exists (<["id" := id]> (delete "method" (delete "params" e0))).
  split; [done|]. split_and!.
  - by simplify_map_eq.
  - by simplify_map_eq.
  - exists id. by rewrite lookup_insert_eq.
Qed.

Lemma errorEntries_stripped (items : list value) (error : value) (entries : list value) :
  errorEntries items error = Ok entries -> Forall2 stripped_entry items entries.
Proof.
  revert error entries. induction items as [|item items IH]; intros error entries; simpl.
  - intros [= <-]. constructor.
  - destruct (errorEntry item error) as [[e error']|] eqn:He; [|done]. simpl.
    destruct (errorEntries items error') as [es|] eqn:Hes; [|done]. simpl.
    intros [= <-]. constructor; [by eapply errorEntry_stripped|by eapply IH].
Qed.

(** X4: whatever the error is, the payload that [_makeErrorResponsePayload]
    yields has an entry for each item and no more, each with the id of its
    item and without [params] and [method], also when the error object
    has such fields itself: an array for a batch, the entry for anything
    else. *)
Theorem error_payload_entries_are_stripped (originalPayload error shaped : value) :
  _makeErrorResponsePayload originalPayload error = Ok shaped ->
  match originalPayload with
  | VArr items => exists entries, shaped = VArr entries
                                  /\ Forall2 stripped_entry items entries
  | item => stripped_entry item shaped
  end.
Proof.
  unfold _makeErrorResponsePayload.
  destruct (errorEntries (concat originalPayload) error) as [entries|] eqn:He; [|done].
  apply errorEntries_stripped in He. simpl. intros [= <-].
  destruct originalPayload; simpl in *; eauto;
    by inversion He as [|? entry ? ? Hs Hnil]; subst; inversion Hnil; subst.
Qed.

(** *** An error whose message is an array *)





(** *** A message without a placeholder *)



(** *** Results that do not cover the batch *)

Lemma responseEntries_short (results items : list value) (idx : nat) :
  idx <= length results ->
  length results < idx + length items ->
  is_ok (responseEntries (VArr results) idx items) = false.
Proof.
  revert idx. induction items as [|item items IH]; intros idx Hidx; simpl; [lia|].
  intros Hlen. destruct (decide (idx < length results)) as [Hin|Hout].
  - destruct (responseEntry (VArr results) idx item); [|done]. simpl.
    specialize (IH (S idx) ltac:(lia) ltac:(lia)).
    by destruct (responseEntries (VArr results) (S idx) items).
  - unfold responseEntry. simpl.
    by rewrite (lookup_ge_None_2 results idx) by lia.
Qed.

(** X7: when the processor answers a batch with fewer results than the batch
    has items, [_makeResponsePayload] throws: no partial response is
    made. *)
Theorem fewer_results_than_items_throws (items results : list value) :
  length results < length items ->
  is_ok (_makeResponsePayload (VArr items) (VArr results)) = false.
Proof.
  intros Hlen. unfold _makeResponsePayload. simpl.
  pose proof (responseEntries_short results items 0 ltac:(lia) ltac:(lia)) as Hs.
  by destruct (responseEntries (VArr results) 0 items).
Qed.

End ErrorPayloadFacts.

(** ** More on the request path *)

Section AnswerFacts.
Context `{Builtins} `{Processors}.

(** *** Failures that are answered *)







(** *** A batch with a [null] entry *)

Lemma errorEntry_null (error : value) : is_ok (errorEntry VNull error) = false.
Proof.
  unfold errorEntry.
  destruct (truthy (prop (extend {[ "jsonrpc" := VStr "2.0" ]} error) "message")); [|done].
  destruct (prop (extend {[ "jsonrpc" := VStr "2.0" ]} error) "message") as [| | | | |l|];
    try done.
  destruct error; try done; by destruct (fst (pop l)).
Qed.

Lemma errorEntries_null (items : list value) (error : value) :
  VNull ∈ items -> is_ok (errorEntries items error) = false.
Proof.
  revert error. induction items as [|item items IH]; intros error Hin.
  - by apply not_elem_of_nil in Hin.
  - simpl. apply elem_of_cons in Hin as [<-|Hin].
    + pose proof (errorEntry_null error) as Hn.
      by destruct (errorEntry VNull error).
    + destruct (errorEntry item error) as [[e error']|]; [|done]. simpl.
      specialize (IH error' Hin). by destruct (errorEntries items error').
Qed.

Lemma sanitizeBatch_null (conn : owner_id) (l : list value) :
  VNull ∈ l -> is_ok (sanitizeBatch conn l) = false.
Proof.
  induction l as [|p l IH]; intros Hin.
  - by apply not_elem_of_nil in Hin.
  - simpl. apply elem_of_cons in Hin as [<-|Hin]; [done|].
    destruct (sanitizeBatchEntry conn p); [|done]. simpl.
    specialize (IH Hin). by destruct (sanitizeBatch conn l).
Qed.

Lemma onConnection_null (st : state) (conn : option connection) (payloadStr : string)
    (l : list value) :
  parse payloadStr = Ok (VArr l) -> VNull ∈ l ->
  exists e, onConnection st conn payloadStr = (Throw e, []).
Proof.
  intros Hp Hin. unfold onConnection. destruct conn as [conn|]; [|by eauto].
  destruct (negb _); [by eauto|]. rewrite Hp. simpl.
  pose proof (sanitizeBatch_null (id conn) l Hin) as Hs.
  destruct (sanitizeBatch (id conn) l); [done|]. simpl. by eauto.
Qed.

Lemma settle_null (isSync : bool) (ownerId : owner_id) (l : list value) (err : exn) :
  VNull ∈ l ->
  exists e, settle isSync ownerId (VArr l) (Throw err)
            = [ log_error "Send request failed"; unhandled_rejection e ].
Proof.
  intros Hin. unfold settle, shaped. simpl.
  destruct (onError (VArr l) err) as [v|e] eqn:He; [|by eauto].
  unfold onError in He.
  destruct (match err with
            | JsValue (VStr s) => Ok (VStr s)
            | JsValue v => get v "message"
            | JsError _ m => Ok (VStr m)
            end) as [m|]; [|done].
  simpl in He.
  destruct (match err with JsValue v => get v "code" | JsError _ _ => Ok VUndef end)
    as [c|]; [|done].
  simpl in He. unfold _makeErrorResponsePayload in He. simpl in He.
  pose proof (errorEntries_null l (VObj {[ "message" := m; "code" := c ]}) Hin) as Hn.
  by destruct (errorEntries l _).
Qed.

(** X10: a batch that holds a [null] entry is never answered: however the
    connection turns out, the request ends in a rejection that nobody
    handles, and the caller gets neither a return value nor a data
    event. *)
Theorem batch_with_null_entry_is_never_answered
    (st : state) (r : res ()) (isSync : bool) (ownerId : owner_id)
    (payloadStr : string) (l : list value) :
  parse payloadStr = Ok (VArr l) ->
  VNull ∈ l ->
  Forall (fun c => is_answer c = false)
         (resume st r (AwaitSend isSync ownerId payloadStr (VArr l)))
  /\ exists e, unhandled_rejection e
               ∈ resume st r (AwaitSend isSync ownerId payloadStr (VArr l)).
Proof.
  intros Hp Hin. unfold resume. destruct r as [[]|err].
  - destruct (onConnection_null st (_connections st !! ownerId) payloadStr l Hp Hin)
      as [e ->].
    destruct (settle_null isSync ownerId l e Hin) as [e' ->]. simpl. split.
    + by repeat constructor.
    + exists e'. rewrite !elem_of_cons. by auto.
  - destruct (settle_null isSync ownerId l err Hin) as [e' ->]. split.
    + by repeat constructor.
    + exists e'. rewrite !elem_of_cons. by auto.
Qed.

(** *** The processor that a request goes to *)

(** X11: a single request that the sanitising lets through goes to exactly
    one processor: the one registered under the name of its method, and
    the [base] processor when there is none. *)
Theorem request_goes_to_named_processor_or_base
    (st : state) (conn : connection) (payloadStr : string)
    (o o' : object) (m : string) :
  isConnected st (socket conn) = true ->
  parse payloadStr = Ok (VObj o) ->
  sanitizePayload base (id conn) (VObj o) = Ok (VObj o') ->
  truthy (prop o' "error") = false ->
  prop o' "method" = VStr m ->
  m ∉ inherited ->
  onConnection st (Some conn) payloadStr
  = match _processors !! m with
    | Some p => (exec p (id conn) (VObj o'), [processor_exec m (id conn) (VObj o')])
    | None => (exec base (id conn) (VObj o'), [processor_exec "base" (id conn) (VObj o')])
    end.
Proof.
  intros Hc Hp Hs He Hm Hin. unfold onConnection. rewrite Hc, Hp. simpl.
  rewrite Hs. simpl. rewrite He. unfold dispatch. simpl. rewrite Hm. simpl.
  destruct (_processors !! m); [done|]. by rewrite bool_decide_eq_false_2.
Qed.


End AnswerFacts.

(** ** More on the table of connections *)

Section TableFacts.
Context `{Builtins} `{Processors}.

(** X13: what the backend does on the inputs of one owner (its IPC calls,
    its callbacks, the settlements of its connect and of its destroys,
    the events of its socket) concerns that owner only: every call it
    makes is on the socket of that owner, to that owner or for it, and
    the connection, the connect operation, the callbacks and the
    destroys of every other owner stay as they were. *)
Theorem owners_are_isolated (ownerId : owner_id) (inputs : list input) (st : state) :
  tables_owned st ->
  Forall (of_owner ownerId) inputs ->
  tables_owned (fst (run inputs st))
  /\ Forall (addressed_to ownerId) (snd (run inputs st))
  /\ forall o, o <> ownerId ->
       _connections (fst (run inputs st)) !! o = _connections st !! o
       /\ _connectionPromise (fst (run inputs st)) !! o = _connectionPromise st !! o
       /\ jobs (fst (run inputs st)) o = jobs st o
       /\ closings (fst (run inputs st)) o = closings st o.
Proof.
  intros Ht Hin. revert st Ht.
  induction Hin as [|i inputs Hi _ IH]; intros st Ht.
  - split_and!; [done|constructor|done].
  - destruct (step_owned ownerId i st Ht Hi) as (Hc1 & Ha1 & _).
    pose proof (step_tables_owned i st Ht) as Ht1.
    destruct (IH _ Ht1) as (Ht2 & Hc2 & Ha2).
    cbn [run]. destruct (step i st) as [st1 calls1]. cbn [fst snd] in *.
    destruct (run inputs st1) as [st2 calls2]. cbn [fst snd] in *.
    split_and!; [done|by apply Forall_app|].
    exact (apart_trans ownerId st st1 st2 Ha1 Ha2).
Qed.

(** *** When [socket.connect] is called *)

Lemma connects_due_delete (js : list job) (k : nat) :
  connects_due (delete k js) <= connects_due js.
Proof.
  destruct (js !! k) as [j|] eqn:Hk.
  - rewrite (connects_due_taken js k j Hk). lia.
  - apply lookup_ge_None in Hk. rewrite delete_take_drop.
    rewrite take_ge, drop_ge by lia. by rewrite app_nil_r.
Qed.

(** The callback that calls [socket.connect] becomes due only in a step
    that ends with the node CONNECTED. *)
Lemma step_due (i : input) (st : state) (o : owner_id) :
  node (fst (step i st)) <> CONNECTED ->
  connects_due (jobs (fst (step i st)) o) <= connects_due (jobs st o).
Proof.
  assert (Hg : forall s a,
            connects_due (jobs (fst (_getOrCreateConnection s a st)) o)
            <= connects_due (jobs st o)).
  { intros s a. unfold _getOrCreateConnection.
    destruct (_connections st !! s); cbn [fst]; rewrite jobs_enqueue;
      destruct (decide (s = o)) as [->|]; try done;
      rewrite connects_due_app; change (connects_due [SaveConnection _ a]) with 0%nat; lia. }
  destruct i as [s|s|s payload|s payload|s d|s k|s r|s k r|s b|s ev data]; cbn [step].
  - intros _. apply Hg.
  - intros _. unfold _destroyConnection. by destruct (_connections st !! s).
  - intros _. unfold _sendRequest. destruct (parse payload); [apply Hg|done].
  - intros _. unfold _sendRequest. destruct (parse payload); [apply Hg|done].
  - cbn [fst]. destruct (onStateChange_frame s (with_node s st)) as (_ & -> & _).
    change (node (with_node s st)) with s. intros Hs.
    rewrite onStateChange_jobs. change (jobs (with_node s st) o) with (jobs st o).
    rewrite connects_due_app.
    destruct (_connectionPromise (with_node s st) !! o) as [p|];
      [|change (connects_due []) with 0%nat; lia].
    destruct (stage p); try (change (connects_due []) with 0%nat; lia).
    destruct (decide (s = CONNECTED)); [done|change (connects_due []) with 0%nat; lia].
  - destruct (jobs st s !! k) as [j|] eqn:Hk; [|done].
    set (st0 := with_queue <[s := delete k (jobs st s)]> st).
    assert (Hle0 : connects_due (jobs st0 o) <= connects_due (jobs st o)).
    { unfold st0. rewrite jobs_taken. destruct (decide (s = o)) as [->|]; [|done].
      apply connects_due_delete. }
    assert (Hn0 : node st0 = node st) by done.
    clearbody st0.
    destruct j as [s' a|s' a|s'|r a|isSync payloadStr payload conn]; cbn [run_job fst].
    + intros _. unfold saveConnection.
      destruct (_connections st0 !! s); cbn [fst]; rewrite jobs_enqueue;
        destruct (decide (s = o)) as [->|]; try done;
        rewrite connects_due_app; change (connects_due [CheckConnected s' a]) with 0%nat;
        change (jobs (with_connections _ st0) o) with (jobs st0 o); lia.
    + unfold checkConnected. destruct (negb _).
      * destruct (_connectionPromise st0 !! s); [done|].
        destruct (decide (node st0 = CONNECTED)) as [Hc|]; [|done].
        intros Hne. by destruct Hne.
      * intros _. rewrite jobs_enqueue. destruct (decide (s = o)) as [->|]; [|done].
        rewrite connects_due_app. change (connects_due [Resume (Ok ()) a]) with 0%nat. lia.
    + done.
    + intros _. unfold resumed.
      destruct a as [w|isSync w payloadStr payload], r as [[]|e]; cbn [fst]; try done.
      rewrite jobs_enqueue. destruct (decide (w = o)) as [->|]; [|done].
      rewrite connects_due_app. change (connects_due [Request _ _ _ _]) with 0%nat. lia.
    + done.
  - intros _. cbn [fst]. unfold onConnectSettled.
    destruct (_connectionPromise st !! s) as [p|]; [|done].
    destruct (stage p); try done.
    rewrite jobs_enqueue. destruct (decide (s = o)) as [->|]; [|done].
    rewrite connects_due_app, connects_due_resumes.
    change (jobs (with_connectionPromise _ st) o) with (jobs st o). lia.
  - intros _. by destruct (closings st s !! k).
  - done.
  - intros _. destruct (bool_decide _); [done|].
    destruct (String.eqb ev "connect"); [done|].
    by destruct (String.eqb ev "data-notification").
Qed.

Lemma step_node (i : input) (st : state) :
  announces_connected i = false -> node st <> CONNECTED ->
  node (fst (step i st)) <> CONNECTED.
Proof.
  intros Hi Hn.
  destruct i as [s|s|s payload|s payload|s d|s k|s r|s k r|s b|s ev data]; cbn [step].
  - unfold _getOrCreateConnection. by destruct (_connections st !! s).
  - unfold _destroyConnection. by destruct (_connections st !! s).
  - unfold _sendRequest, _getOrCreateConnection.
    destruct (parse payload); [|done]. by destruct (_connections st !! s).
  - unfold _sendRequest, _getOrCreateConnection.
    destruct (parse payload); [|done]. by destruct (_connections st !! s).
  - cbn [fst]. destruct (onStateChange_frame s (with_node s st)) as (_ & -> & _).
    by destruct s.
  - destruct (jobs st s !! k) as [j|]; [|done].
    destruct j as [s' a|s' a|s'|r a|isSync payloadStr payload conn]; cbn [run_job fst].
    + unfold saveConnection. by destruct (_connections _ !! s).
    + unfold checkConnected. destruct (negb _); [|done].
      destruct (_connectionPromise _ !! s); [done|]. by destruct (decide _).
    + done.
    + unfold resumed. by destruct a, r as [[]|].
    + done.
  - cbn [fst]. unfold onConnectSettled. destruct (_connectionPromise st !! s) as [p|]; [|done].
    by destruct (stage p).
  - by destruct (closings st s !! k).
  - done.
  - destruct (bool_decide _); [done|].
    destruct (String.eqb ev "connect"); [done|].
    by destruct (String.eqb ev "data-notification").
Qed.

Lemma step_unannounced (i : input) (st : state) :
  announces_connected i = false ->
  node st <> CONNECTED ->
  (forall o, connects_due (jobs st o) = 0%nat) ->
  Forall not_connect (snd (step i st))
  /\ node (fst (step i st)) <> CONNECTED
  /\ (forall o, connects_due (jobs (fst (step i st)) o) = 0%nat).
Proof.
  intros Hi Hn Hd. pose proof (step_node i st Hi Hn) as Hn'.
  split_and!; [|done|].
  - pose proof (step_connect i st) as Hc.
    destruct i as [s|s|s payload|s payload|s d|s k|s r|s k r|s b|s ev data]; try done.
    destruct (jobs st s !! k) as [j|] eqn:Hk; [|done].
    destruct j as [s' a|s' a|s'|r a|isSync payloadStr payload conn]; try done.
    specialize (Hd s). rewrite (connects_due_taken _ _ _ Hk) in Hd.
    change (connects_due [SocketConnect s']) with 1%nat in Hd. lia.
  - intros o. pose proof (step_due i st o Hn') as Hle. specialize (Hd o). lia.
Qed.

(** X14: [socket.connect] is called by the callback of the connect
    operation and by nothing else, with the timeout of 5000 ms and no
    other; that callback becomes due only in a step that ends with the
    node CONNECTED; so as long as the node has not been CONNECTED, no
    socket is connected to. *)
Theorem connect_only_when_node_connected :
  (forall i st s timeout,
     socket_connect s timeout ∈ snd (step i st) ->
     timeout = 5000%Z
     /\ exists o k, i = callback o k /\ jobs st o !! k = Some (SocketConnect s))
  /\ (forall i st o,
        connects_due (jobs st o) < connects_due (jobs (fst (step i st)) o) ->
        node (fst (step i st)) = CONNECTED)
  /\ (forall inputs st,
        node st <> CONNECTED ->
        (forall o, connects_due (jobs st o) = 0%nat) ->
        Forall (fun i => announces_connected i = false) inputs ->
        Forall not_connect (snd (run inputs st))).
Proof.
  split_and!.
  - intros i st s timeout Hin. pose proof (step_connect i st) as Hc.
    assert (Hnot : Forall not_connect (snd (step i st)) -> False).
    { intros Hf. rewrite list.Forall_forall in Hf. exact (Hf _ Hin). }
    destruct i as [o|o|o payload|o payload|n d|o k|o r|o k r|o b|o ev data];
      try by destruct (Hnot Hc).
    destruct (jobs st o !! k) as [j|] eqn:Hk; [|by destruct (Hnot Hc)].
    destruct j as [s' a|s' a|s'|r a|isSync payloadStr payload conn];
      try by destruct (Hnot Hc).
    rewrite Hc in Hin. apply list_elem_of_singleton in Hin as [= -> ->].
    split; [done|]. by exists o, k.
  - intros i st o Hlt. destruct (decide (node (fst (step i st)) = CONNECTED)) as [|Hne];
      [done|]. pose proof (step_due i st o Hne). lia.
  - intros inputs st Hn Hd Hin. revert st Hn Hd.
    induction Hin as [|i inputs Hi _ IH]; intros st Hn Hd; [constructor|].
    destruct (step_unannounced i st Hi Hn Hd) as (Hc & Hn' & Hd').
    cbn [run]. destruct (step i st) as [st1 calls1]. cbn [fst snd] in *.
    specialize (IH st1 Hn' Hd'). destruct (run inputs st1) as [st2 calls2].
    cbn [snd] in *. by apply Forall_app.
Qed.

End TableFacts.

(** ** Setting a connection up, and tearing it down *)

Section LifecycleFacts.
Context `{Builtins} `{Processors}.












End LifecycleFacts.

(** ** More on the payloads that go back *)

Section PayloadFacts.
Context `{Builtins}.

Lemma responseEntry_surplus (results surplus : list value) (idx : nat) (item : value) :
  idx < length results ->
  responseEntry (VArr (results ++ surplus)) idx item
  = responseEntry (VArr results) idx item.
Proof.
  intros Hidx. unfold responseEntry. simpl. by rewrite lookup_app_l.
Qed.

Lemma responseEntries_surplus (results surplus items : list value) (idx : nat) :
  idx + length items <= length results ->
  responseEntries (VArr (results ++ surplus)) idx items
  = responseEntries (VArr results) idx items.
Proof.
  revert idx. induction items as [|item items IH]; intros idx Hlen; [done|].
  simpl in *. rewrite responseEntry_surplus by lia.
  rewrite IH by lia. reflexivity.
Qed.

(** X18: the results of a batch are matched to the items by position, and the
    results beyond the last item are ignored. *)
Theorem surplus_results_are_ignored (items results surplus : list value) :
  length items <= length results ->
  _makeResponsePayload (VArr items) (VArr (results ++ surplus))
  = _makeResponsePayload (VArr items) (VArr results).
Proof.
  intros Hlen. unfold _makeResponsePayload. simpl.
  by rewrite responseEntries_surplus.
Qed.

(** X19: a notification of the node that carries an error (and no message of
    its own) is sent on to the owner with the error object as it came,
    code and data included, without [params] and [method], and with the
    id of the notification. *)
Theorem notification_error_is_sent_on_unchanged (ownerId : owner_id) (d : object) :
  truthy (prop d "error") = true ->
  truthy (prop d "message") = false ->
  exists e,
    Hooks.onDataNotification ownerId (VObj d)
    = Ok (owner_send ownerId "ipcProvider-data" (VStr (JSON_stringify (VObj e))))
    /\ e !! "error" = d !! "error"
    /\ e !! "params" = None /\ e !! "method" = None
    /\ e !! "id" = Some (prop d "id")
    /\ e !! "jsonrpc" = Some (default (VStr "2.0") (d !! "jsonrpc")).
Proof.
  intros He Hm. unfold Hooks.onDataNotification. simpl. rewrite He.
  unfold _makeErrorResponsePayload. simpl. unfold errorEntry, extend, allProps.
  assert (Hmsg : prop (d ∪ {[ "jsonrpc" := VStr "2.0" ]}) "message" = prop d "message").
  { unfold prop. rewrite lookup_union. rewrite lookup_singleton_ne by done.
    by destruct (d !! "message"). }
  rewrite Hmsg, Hm. simpl. eexists. split; [reflexivity|].
  split_and!.
  - rewrite lookup_insert_ne by done. rewrite !lookup_delete_ne by done.
    rewrite lookup_union, lookup_singleton_ne by done. by destruct (d !! "error").
  - rewrite lookup_insert_ne by done. rewrite lookup_delete_ne by done.
    apply lookup_delete_eq.
  - rewrite lookup_insert_ne by done. apply lookup_delete_eq.
  - apply lookup_insert_eq.
  - rewrite lookup_insert_ne by done. rewrite !lookup_delete_ne by done.
    rewrite lookup_union, lookup_singleton_eq. by destruct (d !! "jsonrpc").
Qed.

End PayloadFacts.

(** ** The further theorems on the sample requests *)

Section MoreRuns.
Import Reference Sample.

Lemma get_returns_fallback_or_truthy_witness :
  Underscore.get (VObj settings) (VStr "rpc.port") (num 8545) = Some (num 8545)
  /\ (num 8545 = num 8545 \/ truthy (num 8545) = true).
Proof.
  assert (H1 : Underscore.get (VObj settings) (VStr "rpc.port") (num 8545)
               = Some (num 8545)) by reflexivity.
  split; [exact H1|].
  exact (get_returns_fallback_or_truthy (VObj settings) (VStr "rpc.port") (num 8545)
           (num 8545) H1).
Defined.

Lemma get_without_object_or_path_witness :
  Underscore.isObject (VStr "localhost") = false
  /\ Underscore.get (VStr "localhost") (VStr "length") (num 0) = Some (num 0).
Proof.
  split; [reflexivity|].
  apply (get_without_object_or_path (VStr "localhost") (VStr "length") (num 0)).
  left. reflexivity.
Defined.

Lemma get_nested_witness :
  Underscore.dotless "rpc" = true
  /\ ("rpc" ∉ inherited)
  /\ Underscore.get (VObj settings) (VStr "rpc.host") (VStr "none")
     = Underscore.get (prop settings "rpc") (VStr "host") (VStr "none")
  /\ Underscore.get (VObj settings) (VStr "rpc") (VStr "none")
     = Some (prop settings "rpc").
Proof.
  assert (H1 : Underscore.dotless "rpc" = true) by reflexivity.
  assert (H2 : "rpc" ∉ inherited).
  { apply (proj1 (bool_decide_eq_false _)). reflexivity. }
  split; [exact H1|]. split; [exact H2|].
  exact (get_nested settings "rpc" "host" (VStr "none") H1 H2).
Defined.

Lemma error_payload_entries_are_stripped_witness :
  _makeErrorResponsePayload (VObj call_request) ERRORS.METHOD_DENIED
  = Ok (VObj (error_entry call_request
                {[ "code" := num (-32601);
                   "message" := VStr "Method '__method__' not allowed." ]}
                "Method '__method__' not allowed."))
  /\ stripped_entry (VObj call_request)
       (VObj (error_entry call_request
                {[ "code" := num (-32601);
                   "message" := VStr "Method '__method__' not allowed." ]}
                "Method '__method__' not allowed.")).
Proof.
  assert (H1 : _makeErrorResponsePayload (VObj call_request) ERRORS.METHOD_DENIED
               = Ok (VObj (error_entry call_request
                             {[ "code" := num (-32601);
                                "message" := VStr "Method '__method__' not allowed." ]}
                             "Method '__method__' not allowed."))) by reflexivity.
  split; [exact H1|].
  exact (error_payload_entries_are_stripped (VObj call_request) ERRORS.METHOD_DENIED _ H1).
Defined.



Lemma fewer_results_than_items_throws_witness :
  length [success] < length batch
  /\ is_ok (_makeResponsePayload (VArr batch) (VArr [success])) = false.
Proof.
  assert (H1 : length [success] < length batch) by (simpl; lia).
  split; [exact H1|].
  exact (fewer_results_than_items_throws batch [success] H1).
Defined.

Lemma surplus_results_are_ignored_witness :
  length [VObj call_request] <= length [success]
  /\ _makeResponsePayload (VArr [VObj call_request]) (VArr ([success] ++ [failure]))
     = _makeResponsePayload (VArr [VObj call_request]) (VArr [success]).
Proof.
  assert (H1 : length [VObj call_request] <= length [success]) by (simpl; lia).
  split; [exact H1|].
  exact (surplus_results_are_ignored [VObj call_request] [success] [failure] H1).
Defined.

Lemma notification_error_is_sent_on_unchanged_witness :
  truthy (prop failed_notification "error") = true
  /\ truthy (prop failed_notification "message") = false
  /\ exists e,
       Hooks.onDataNotification window (VObj failed_notification)
       = Ok (owner_send window "ipcProvider-data" (VStr (JSON_stringify (VObj e))))
       /\ e !! "error" = Some ERRORS.TX_DENIED
       /\ e !! "method" = None.
Proof.
  assert (H1 : truthy (prop failed_notification "error") = true) by reflexivity.
  assert (H2 : truthy (prop failed_notification "message") = false) by reflexivity.
  split; [exact H1|]. split; [exact H2|].
  destruct (notification_error_is_sent_on_unchanged window failed_notification H1 H2)
    as (e & Hsent & He & _ & Hm & _).
  exists e. split; [exact Hsent|]. split; [exact He|exact Hm].
Defined.



Lemma batch_with_null_entry_is_never_answered_witness :
  parse "[null]" = Ok (VArr [VNull])
  /\ (VNull ∈ [VNull])
  /\ Forall (fun c => is_answer c = false)
            (resume online (Ok ()) (AwaitSend false window "[null]" (VArr [VNull]))).
Proof.
  assert (H1 : parse "[null]" = Ok (VArr [VNull])) by reflexivity.
  assert (H2 : VNull ∈ [VNull]) by apply list_elem_of_here.
  split; [exact H1|]. split; [exact H2|].
  exact (proj1 (batch_with_null_entry_is_never_answered online (Ok ()) false window
                  "[null]" [VNull] H1 H2)).
Defined.

Lemma request_goes_to_named_processor_or_base_witness :
  isConnected online (socket conn) = true
  /\ parse accounts_text = Ok (VObj accounts_request)
  /\ sanitizePayload (@base lenient) (id conn) (VObj accounts_request)
     = Ok (VObj accounts_request)
  /\ truthy (prop accounts_request "error") = false
  /\ prop accounts_request "method" = VStr "eth_accounts"
  /\ ("eth_accounts" ∉ inherited)
  /\ @onConnection builtins lenient online (Some conn) accounts_text
     = (exec accounts (id conn) (VObj accounts_request),
        [processor_exec "eth_accounts" (id conn) (VObj accounts_request)]).
Proof.
  assert (H1 : isConnected online (socket conn) = true) by reflexivity.
  assert (H2 : parse accounts_text = Ok (VObj accounts_request)) by reflexivity.
  assert (H3 : sanitizePayload (@base lenient) (id conn) (VObj accounts_request)
               = Ok (VObj accounts_request)) by reflexivity.
  assert (H4 : truthy (prop accounts_request "error") = false) by reflexivity.
  assert (H5 : prop accounts_request "method" = VStr "eth_accounts") by reflexivity.
  assert (H6 : "eth_accounts" ∉ inherited).
  { apply (proj1 (bool_decide_eq_false _)). reflexivity. }
  split; [exact H1|]. split; [exact H2|]. split; [exact H3|]. split; [exact H4|].
  split; [exact H5|]. split; [exact H6|].
  exact (@request_goes_to_named_processor_or_base builtins lenient online conn
           accounts_text accounts_request accounts_request "eth_accounts"
           H1 H2 H3 H4 H5 H6).
Defined.


Lemma owners_are_isolated_witness :
  tables_owned online
  /\ Forall (of_owner 2%N)
            [ ipcProvider_write 2%N call_text; callback 2%N 0; callback 2%N 0;
              callback 2%N 0; ipcProvider_destroy 2%N;
              socket_destroy_settled 2%N 0 (Ok ());
              socket_connect_settled 2%N (Ok ()); callback 2%N 0; callback 2%N 0 ]
  /\ _connections
       (fst (run [ ipcProvider_write 2%N call_text; callback 2%N 0; callback 2%N 0;
                   callback 2%N 0; ipcProvider_destroy 2%N;
                   socket_destroy_settled 2%N 0 (Ok ());
                   socket_connect_settled 2%N (Ok ()); callback 2%N 0; callback 2%N 0 ]
                 online)) !! window
     = Some conn
  /\ Forall (addressed_to 2%N)
       (snd (run [ ipcProvider_write 2%N call_text; callback 2%N 0; callback 2%N 0;
                   callback 2%N 0; ipcProvider_destroy 2%N;
                   socket_destroy_settled 2%N 0 (Ok ());
                   socket_connect_settled 2%N (Ok ()); callback 2%N 0; callback 2%N 0 ]
                 online)).
Proof.
  assert (H1 : tables_owned online).
  { split_and!.
    - intros o c. unfold online. simpl.
      rewrite lookup_singleton_Some. by intros [<- <-].
    - intros o p. unfold online. simpl. by rewrite lookup_empty.
    - intros o. unfold jobs, online. simpl. rewrite lookup_empty. constructor. }
  assert (H2 : Forall (of_owner 2%N)
                 [ ipcProvider_write 2%N call_text; callback 2%N 0; callback 2%N 0;
                   callback 2%N 0; ipcProvider_destroy 2%N;
                   socket_destroy_settled 2%N 0 (Ok ());
                   socket_connect_settled 2%N (Ok ()); callback 2%N 0;
                   callback 2%N 0 ]).
  { repeat constructor. }
  split; [exact H1|]. split; [exact H2|].
  destruct (owners_are_isolated 2%N _ online H1 H2) as (_ & Hcalls & Hother).
  destruct (Hother window) as (Hc & _); [discriminate|].
  split; [|exact Hcalls]. rewrite Hc. reflexivity.
Defined.




End MoreRuns.
